(** * Podlink episode-link worker: shallow embedding and verified properties

    The worker (src/index.ts) resolves a (show name, episode title) pair into
    a pod.link share URL: directory search, feed retrieval, episode matching,
    URL-safe base64 encoding of the episode GUID.

    Part I embeds the program.  ECMAScript strings are sequences of UTF-16
    code units; the platform built-ins the worker calls ([trim], the [\s]
    class, [includes], [TextEncoder], [btoa], [Array.prototype.find], ...)
    are modelled in [Module JS].  [String.prototype.toLowerCase] depends on
    the Unicode case tables of the host and is a parameter of the worker.
    Exceptions are the error monad [sum jsstring] of ExtLib: [raise] is
    [throw new Error(msg)], [catch] is [try { } catch { }].

    Part II states and proves the properties.  Part III covers the rest of
    the handler and the helpers: validation, the taxonomy of responses, the
    error paths, and further facts about matching and encoding. *)

From Stdlib Require Import NArith ZArith List Bool Lia String Ascii DecimalString.
From ExtLib Require Import Structures.Monad Structures.MonadExc Data.Monads.EitherMonad.
Import ListNotations MonadNotation.
Local Open Scope monad_scope.
Local Open Scope N_scope.

(* ===================================================================== *)
(** * Part I.  The embedding                                              *)
(* ===================================================================== *)

Module JS.

(** A string value is a finite sequence of 16-bit code units. *)
Definition code_unit := N.
Definition jsstring := list code_unit.

(** String literals of the source: every literal in index.ts is ASCII. *)
Definition js (s : string) : jsstring :=
  map N_of_ascii (list_ascii_of_string s).

(** The double-quote character inside the template literals. *)
Definition dquote : jsstring := [34].

(** [===] on strings: equality of the code-unit sequences. *)
Fixpoint str_eqb (s t : jsstring) : bool :=
  match s, t with
  | [], [] => true
  | c :: s', d :: t' => (c =? d) && str_eqb s' t'
  | _, _ => false
  end.

(** WhiteSpace and LineTerminator code units (ECMA-262 12.2, 12.3): the set
    removed by [trim] and matched by the regular-expression class [\s]. *)
Definition is_whitespace (u : code_unit) : bool :=
  existsb (N.eqb u)
    [9; 10; 11; 12; 13; 32; 160; 5760; 8232; 8233; 8239; 8287; 12288; 65279]
  || ((8192 <=? u) && (u <=? 8202)).

Fixpoint trimStart (s : jsstring) : jsstring :=
  match s with
  | [] => []
  | u :: r => if is_whitespace u then trimStart r else s
  end.

Fixpoint trimEnd (s : jsstring) : jsstring :=
  match s with
  | [] => []
  | u :: r =>
      match trimEnd r with
      | [] => if is_whitespace u then [] else [u]
      | r' => u :: r'
      end
  end.

(** [String.prototype.trim]. *)
Definition trim (s : jsstring) : jsstring := trimEnd (trimStart s).

(** [s.replace(/\s+/g, " ")], as the left-to-right scan of the matcher:
    [in_run] records that the previous code unit belonged to the whitespace
    run currently being replaced, whose single space is already emitted. *)
Fixpoint replace_ws_from (in_run : bool) (s : jsstring) : jsstring :=
  match s with
  | [] => []
  | u :: r =>
      if is_whitespace u
      then if in_run then replace_ws_from true r
           else 32 :: replace_ws_from true r
      else u :: replace_ws_from false r
  end.

Definition replace_ws_runs (s : jsstring) : jsstring := replace_ws_from false s.

(** [t] occurs in [s] at position 0. *)
Fixpoint startsWith (s t : jsstring) : bool :=
  match t, s with
  | [], _ => true
  | _ :: _, [] => false
  | d :: t', c :: s' => (c =? d) && startsWith s' t'
  end.

(** [String.prototype.includes]: [t] occurs in [s] at some position. *)
Fixpoint includes (s t : jsstring) : bool :=
  startsWith s t ||
  match s with
  | [] => false
  | _ :: s' => includes s' t
  end.

(** [Array.prototype.slice(0, n)]. *)
Definition slice0 {A} (n : nat) (l : list A) : list A := firstn n l.

(** Template-literal rendering of an HTTP status: [response.status] is an
    integer of at most three digits, for which Number::toString prints the
    decimal digits. *)
Definition Number_toString (z : Z) : jsstring :=
  js (NilZero.string_of_int (Z.to_int z)).

(** A Number value that comes out of a decoded JSON document and is only
    compared, stored and rendered.  Number::toString prints all the digits
    of a safe integer (magnitude at most 2^53 - 1); beyond, it rounds to the
    shortest digits that read back as the same double and, from 10^21 on,
    switches to exponent notation.  A safe integer is given by its value;
    any other Number value is given by the string Number::toString returns
    for it, which determines it. *)
Inductive jsnumber :=
  | SafeInteger (z : Z)
  | OtherNumber (rendering : jsstring).

(** The invariant of the representation: a [SafeInteger] is one. *)
Definition wf_number (x : jsnumber) : Prop :=
  match x with
  | SafeInteger z => (Z.abs z <= 9007199254740991)%Z
  | OtherNumber _ => True
  end.

(** Template-literal rendering of a Number value. *)
Definition jsnumber_toString (x : jsnumber) : jsstring :=
  match x with
  | SafeInteger z => Number_toString z
  | OtherNumber rendering => rendering
  end.

(** ** TextEncoder, String.fromCharCode and btoa *)

Definition is_high_surrogate (u : code_unit) : bool := (55296 <=? u) && (u <=? 56319).
Definition is_low_surrogate (u : code_unit) : bool := (56320 <=? u) && (u <=? 57343).

(** Conversion of a string to scalar values (WebIDL USVString): a surrogate
    pair is one code point, a lone surrogate becomes U+FFFD. *)
Fixpoint to_scalar_values (s : jsstring) : list N :=
  match s with
  | [] => []
  | u :: r =>
      if is_high_surrogate u then
        match r with
        | v :: r' =>
            if is_low_surrogate v
            then (65536 + N.shiftl (u - 55296) 10 + (v - 56320)) :: to_scalar_values r'
            else 65533 :: to_scalar_values r
        | [] => [65533]
        end
      else if is_low_surrogate u then 65533 :: to_scalar_values r
      else u :: to_scalar_values r
  end.

(** An element of a [Uint8Array] holds its value modulo 2^8. *)
Definition to_uint8 (x : N) : N := x mod 256.

(** UTF-8 encoding of one scalar value, stored into a [Uint8Array]. *)
Definition utf8_encode_scalar (cp : N) : list N :=
  map to_uint8
    (if cp <? 128 then [cp]
     else if cp <? 2048 then
       [N.lor 192 (N.shiftr cp 6); N.lor 128 (N.land cp 63)]
     else if cp <? 65536 then
       [N.lor 224 (N.shiftr cp 12);
        N.lor 128 (N.land (N.shiftr cp 6) 63);
        N.lor 128 (N.land cp 63)]
     else
       [N.lor 240 (N.shiftr cp 18);
        N.lor 128 (N.land (N.shiftr cp 12) 63);
        N.lor 128 (N.land (N.shiftr cp 6) 63);
        N.lor 128 (N.land cp 63)]).

(** [new TextEncoder().encode(input)]. *)
Definition TextEncoder_encode (s : jsstring) : list N :=
  flat_map utf8_encode_scalar (to_scalar_values s).

(** [String.fromCharCode(...data)]: every argument goes through ToUint16.
    (The bound an engine puts on the number of arguments of one call is a
    resource limit and is not modelled.) *)
Definition String_fromCharCode (data : list N) : jsstring :=
  map (fun b => b mod 65536) data.

(** The base64 alphabet of RFC 4648, table 1, by 6-bit index. *)
Definition base64_char (i : N) : code_unit :=
  if i <? 26 then 65 + i
  else if i <? 52 then 97 + (i - 26)
  else if i <? 62 then 48 + (i - 52)
  else if i =? 62 then 43
  else 47.

Definition pad_char : code_unit := 61.

(** The encoder loop of [btoa]: three octets give four sextets, taken with
    shifts and masks; a final group of one or two octets is padded. *)
Fixpoint base64_encode (bs : list N) : jsstring :=
  match bs with
  | [] => []
  | [a] =>
      [base64_char (N.shiftr a 2);
       base64_char (N.shiftl (N.land a 3) 4);
       pad_char; pad_char]
  | [a; b] =>
      [base64_char (N.shiftr a 2);
       base64_char (N.lor (N.shiftl (N.land a 3) 4) (N.shiftr b 4));
       base64_char (N.shiftl (N.land b 15) 2);
       pad_char]
  | a :: b :: c :: rest =>
      base64_char (N.shiftr a 2)
      :: base64_char (N.lor (N.shiftl (N.land a 3) 4) (N.shiftr b 4))
      :: base64_char (N.lor (N.shiftl (N.land b 15) 2) (N.shiftr c 6))
      :: base64_char (N.land c 63)
      :: base64_encode rest
  end.

(** [btoa(data)]: throws InvalidCharacterError when a code unit is above
    U+00FF, otherwise the base64 encoding of the code units as octets. *)
Definition btoa (data : jsstring) : sum jsstring jsstring :=
  if forallb (fun u => u <=? 255) data
  then ret (base64_encode data)
  else raise (js "Invalid character").

(** [s.replace(/c/g, d)] for a single literal character [c]. *)
Definition replace_all_char (c d : code_unit) (s : jsstring) : jsstring :=
  map (fun u => if u =? c then d else u) s.

(** [s.replace(/=+$/, "")]: the leftmost position from which the rest of
    the string is a non-empty run of [=] up to the end is where the match
    starts; the match is deleted. *)
Fixpoint replace_trailing_pad (s : jsstring) : jsstring :=
  match s with
  | [] => []
  | u :: r => if forallb (N.eqb pad_char) s then [] else u :: replace_trailing_pad r
  end.

End JS.
Import JS.

(** ** Types of index.ts *)

Record ApplePodcastResult := {
  collectionId : jsnumber;
  collectionName : jsstring;
  feedUrl : option jsstring   (* the directory may omit it *)
}.

Record AppleSearchResponse := {
  resultCount : Z;
  results : list ApplePodcastResult
}.

(** [guid: string | { "#text": string }] *)
Inductive Guid :=
  | GuidString (s : jsstring)
  | GuidObject (text : jsstring).

Record RSSItem := {
  title : jsstring;
  guid : Guid
}.

(** [item: RSSItem | RSSItem[]], or no [item] property at all. *)
Inductive Items :=
  | NoItem
  | OneItem (i : RSSItem)
  | ManyItems (l : list RSSItem).

Record RSSChannel := {
  channel_title : jsstring;
  item : Items
}.

Record RSSRoot := { channel : option RSSChannel }.

(** The tree the XML parser returns; [rss] itself may be missing. *)
Record RSSFeed := { rss : option RSSRoot }.

(** ** The network

    What a [fetch] call can do: reject (a network failure, an [Error] with
    a message), or resolve to a response with a status, whose body decodes
    ([response.json()], [parser.parse(await response.text())]) to a value
    or throws. *)
Inductive Reply (B : Type) :=
  | NetworkError (message : jsstring)
  | HttpResponse (status : Z) (body : sum jsstring B).
Arguments NetworkError {B} message.
Arguments HttpResponse {B} status body.

(** [response.ok] *)
Definition ok (status : Z) : bool := ((200 <=? status) && (status <=? 299))%Z.

(** The two collaborators: the directory, asked with the search term, and
    the feed servers, asked with a URL. *)
Record World := {
  directory : jsstring -> Reply AppleSearchResponse;
  feed : jsstring -> Reply RSSFeed
}.

(** ** Requests and responses of the worker *)

Inductive Method := OPTIONS | POST | OtherMethod.

(** A property of the request's JSON object, as the validation sees it. *)
Inductive Field :=
  | FieldAbsent
  | FieldNotString
  | FieldString (s : jsstring).

Record RequestJson := {
  showName_field : Field;
  episodeTitle_field : Field
}.

(** What [request.json()] resolves to: [null], or a value on which the two
    properties can be read (an object; a string, a number, a boolean or an
    array has neither). *)
Inductive JsonBody :=
  | JsonNull
  | JsonValue (properties : RequestJson).

Record Request := {
  method : Method;
  json : sum jsstring JsonBody   (* [request.json()] may throw *)
}.

Inductive Payload :=
  | SuccessPayload (podlinkUrl name : jsstring) (appleId : jsnumber)
                   (episode_title episode_guid : jsstring)
  | ErrorPayload (error : jsstring) (message : option jsstring)
                 (availableEpisodes : option (list jsstring)).

Record Response := {
  status : Z;
  body : option Payload
}.

(** [toLowerCase] restricted to ASCII, where the host's case tables map
    A-Z to a-z and nothing else; used to run the worker on ASCII inputs. *)
Definition ascii_lower (u : code_unit) : code_unit :=
  if (65 <=? u) && (u <=? 90) then u + 32 else u.

Definition ascii_toLowerCase (s : jsstring) : jsstring := map ascii_lower s.

Section Worker.

(** [String.prototype.toLowerCase] of the host. *)
Variable toLowerCase : jsstring -> jsstring.

(** ** Helpers (index.ts, lines 43-84) *)

Definition normalizeText (text : jsstring) : jsstring :=
  replace_ws_runs (trim (toLowerCase text)).

Definition fuzzyMatch (a b : jsstring) : bool :=
  let normA := normalizeText a in
  let normB := normalizeText b in
  str_eqb normA normB || includes normA normB || includes normB normA.

Definition extractGuid (guid : Guid) : jsstring :=
  match guid with
  | GuidString s => s
  | GuidObject text => text
  end.

Definition toUrlSafeBase64 (input : jsstring) : sum jsstring jsstring :=
  let data := TextEncoder_encode input in
  let binaryString := String_fromCharCode data in
  base64 <- btoa binaryString ;;
  ret (replace_trailing_pad
         (replace_all_char 47 95 (replace_all_char 43 45 base64))).

(** ** Apple Podcasts search (lines 90-132) *)

(** Lines 112-131: the choice among the results of a decoded response. *)
Definition selectShow (data : AppleSearchResponse) (showName : jsstring)
  : option ApplePodcastResult :=
  if (resultCount data =? 0)%Z || (List.length (results data) =? 0)%nat then None
  else
    let exactMatch :=
      find (fun r => str_eqb (normalizeText (collectionName r)) (normalizeText showName))
           (results data) in
    match exactMatch with
    | Some r => Some r
    | None =>
        let fuzzyMatchResult :=
          find (fun r => fuzzyMatch (collectionName r) showName) (results data) in
        match fuzzyMatchResult with
        | Some r => Some r
        | None => nth_error (results data) 0
        end
    end.

Definition searchApplePodcasts (w : World) (showName : jsstring)
  : sum jsstring (option ApplePodcastResult) :=
  match directory w showName with
  | NetworkError m => raise m
  | HttpResponse st body =>
      if negb (ok st)
      then raise (js "Apple Search API error: " ++ Number_toString st)
      else data <- body ;; ret (selectShow data showName)
  end.

(** ** RSS feed parsing (lines 138-190) *)

(** [parsed.rss?.channel] *)
Definition rss_channel (parsed : RSSFeed) : option RSSChannel :=
  match rss parsed with
  | Some r => channel r
  | None => None
  end.

(** Lines 160-171: from the parsed tree to the list of entries. *)
Definition channelItems (parsed : RSSFeed) : sum jsstring (list RSSItem) :=
  let channel := rss_channel parsed in
  match channel with
  | None => raise (js "Invalid RSS feed structure")
  | Some channel =>
      match item channel with
      | NoItem => ret []
      | ManyItems items => ret items
      | OneItem items => ret [items]
      end
  end.

Definition fetchAndParseRSSFeed (w : World) (feedUrl : jsstring)
  : sum jsstring (list RSSItem) :=
  match feed w feedUrl with
  | NetworkError m => raise m
  | HttpResponse st body =>
      if negb (ok st)
      then raise (js "Failed to fetch RSS feed: " ++ Number_toString st)
      else parsed <- body ;; channelItems parsed
  end.

Definition findEpisode (episodes : list RSSItem) (episodeTitle : jsstring)
  : option RSSItem :=
  let exactMatch :=
    find (fun ep => str_eqb (normalizeText (title ep)) (normalizeText episodeTitle))
         episodes in
  match exactMatch with
  | Some ep => Some ep
  | None => find (fun ep => fuzzyMatch (title ep) episodeTitle) episodes
  end.

(** ** Response helper and main handler (lines 196-346) *)

(** [jsonResponse(data, status = 200)]; the CORS headers are constant. *)
Definition jsonResponse (data : Payload) (status : Z) : Response :=
  {| status := status; body := Some data |}.

(** [!s] for a string-valued property that may be missing. *)
Definition falsy (s : option jsstring) : bool :=
  match s with
  | None => true
  | Some [] => true
  | Some (_ :: _) => false
  end.

(** The body of the [try] block, lines 263-330.  A value [inl message] is an
    exception on its way to the [catch]. *)
Definition tryBlock (w : World) (showName episodeTitle : jsstring)
  : sum jsstring Response :=
  (* Step 1 *)
  podcast <- searchApplePodcasts w showName ;;
  match podcast with
  | None =>
      ret (jsonResponse
             (ErrorPayload (js "Podcast not found")
                (Some (js "No podcast found matching " ++ dquote ++ showName ++ dquote))
                None)
             404)
  | Some podcast =>
      if falsy (feedUrl podcast) then
        ret (jsonResponse
               (ErrorPayload (js "No feed URL")
                  (Some (js "Podcast " ++ dquote ++ collectionName podcast ++ dquote
                         ++ js " has no RSS feed URL"))
                  None)
               404)
      else
        (* Step 2 *)
        episodes <- fetchAndParseRSSFeed w (match feedUrl podcast with Some u => u | None => [] end) ;;
        if (List.length episodes =? 0)%nat then
          ret (jsonResponse
                 (ErrorPayload (js "No episodes")
                    (Some (js "Podcast " ++ dquote ++ collectionName podcast ++ dquote
                           ++ js " has no episodes"))
                    None)
                 404)
        else
          (* Step 3 *)
          match findEpisode episodes episodeTitle with
          | None =>
              ret (jsonResponse
                     (ErrorPayload (js "Episode not found")
                        (Some (js "No episode found matching " ++ dquote ++ episodeTitle
                               ++ dquote ++ js " in " ++ dquote
                               ++ collectionName podcast ++ dquote))
                        (Some (map title (slice0 5 episodes))))
                     404)
          | Some episode =>
              (* Step 4 *)
              let guid := extractGuid (guid episode) in
              base64Guid <- toUrlSafeBase64 guid ;;
              (* Step 5 *)
              let podlinkUrl :=
                js "https://pod.link/" ++ jsnumber_toString (collectionId podcast)
                ++ js "/episode/" ++ base64Guid in
              ret (jsonResponse
                     (SuccessPayload podlinkUrl (collectionName podcast)
                        (collectionId podcast) (title episode) guid)
                     200)
          end
  end.

(** The [catch] block, lines 331-344: every exception of the [try] block is
    an [Error], whose message is reported. *)
Definition catchBlock (message : jsstring) : sum jsstring Response :=
  ret (jsonResponse
         (ErrorPayload (js "Internal server error") (Some message) None)
         500).

(** Lines 262-344, for a validated request. *)
Definition resolve (w : World) (showName episodeTitle : jsstring) : Response :=
  match catch (tryBlock w showName episodeTitle) catchBlock with
  | inr response => response
  | inl message =>   (* unreachable: [catchBlock] does not throw *)
      jsonResponse (ErrorPayload (js "Internal server error") (Some message) None) 500
  end.

(** [export default { async fetch(request) }].  The result is the response
    the handler returns, or [None] when it returns none: on a body that is
    [null], reading [body.showName] at line 246 throws a TypeError outside
    both [try] blocks. *)
Definition fetch (w : World) (request : Request) : option Response :=
  match method request with
  | OPTIONS => Some {| status := 204; body := None |}
  | OtherMethod =>
      Some (jsonResponse
              (ErrorPayload (js "Method not allowed. Use POST.") None None) 405)
  | POST =>
      match json request with
      | inl _ =>
          Some (jsonResponse (ErrorPayload (js "Invalid JSON body") None None) 400)
      | inr JsonNull => None
      | inr (JsonValue body) =>
          match showName_field body with
          | FieldString ((_ :: _) as showName) =>
              match episodeTitle_field body with
              | FieldString ((_ :: _) as episodeTitle) =>
                  Some (resolve w showName episodeTitle)
              | _ =>
                  Some (jsonResponse
                          (ErrorPayload (js "Missing or invalid 'episodeTitle' field")
                             None None)
                          400)
              end
          | _ =>
              Some (jsonResponse
                      (ErrorPayload (js "Missing or invalid 'showName' field")
                         None None)
                      400)
          end
      end
  end.

End Worker.

(** A validated POST request. *)
Definition post (showName episodeTitle : jsstring) : Request :=
  {| method := POST;
     json := inr (JsonValue {| showName_field := FieldString showName;
                               episodeTitle_field := FieldString episodeTitle |}) |}.

(** ** The specification's vocabulary

    Definitions that follow the words of the specification, to compare the
    embedded code against. *)
Module Spec.

(** "[s] contains [t] as a substring". *)
Definition contains (s t : jsstring) : Prop :=
  exists pre post, s = pre ++ t ++ post.

(** "the first candidate [x] of [l] for which [P] holds". *)
Definition first_such {A} (P : A -> Prop) (l : list A) (x : A) : Prop :=
  exists pre post,
    l = pre ++ x :: post /\ P x /\ (forall y, In y pre -> ~ P y).

(** "no candidate of [l] satisfies [P]". *)
Definition none_such {A} (P : A -> Prop) (l : list A) : Prop :=
  forall y, In y l -> ~ P y.

(** A well-formed string: every code unit fits 16 bits. *)
Definition wf_string (s : jsstring) : Prop := Forall (fun u => u < 65536) s.

(** UTF-8 (RFC 3629, section 3) of a scalar value, by the table of bit
    distributions read arithmetically. *)
Definition utf8 (cp : N) : list N :=
  if cp <? 128 then [cp]
  else if cp <? 2048 then [192 + cp / 64; 128 + cp mod 64]
  else if cp <? 65536 then
    [224 + cp / 4096; 128 + (cp / 64) mod 64; 128 + cp mod 64]
  else
    [240 + cp / 262144; 128 + (cp / 4096) mod 64;
     128 + (cp / 64) mod 64; 128 + cp mod 64].

Definition utf8_bytes (s : jsstring) : list N :=
  flat_map utf8 (to_scalar_values s).

(** The [k]-th 6-bit group, from the right, of a 24-bit group (RFC 4648,
    section 4). *)
Definition sextet (n k : N) : N := (n / 64 ^ k) mod 64.

(** Standard base64 with padding: a 24-bit group of three octets gives four
    characters; a final quantum of 8 bits gives two characters and [==], of
    16 bits three characters and [=]. *)
Fixpoint base64 (bytes : list N) : jsstring :=
  match bytes with
  | [] => []
  | [a] =>
      let n := a * 65536 in
      [base64_char (sextet n 3); base64_char (sextet n 2); pad_char; pad_char]
  | [a; b] =>
      let n := a * 65536 + b * 256 in
      [base64_char (sextet n 3); base64_char (sextet n 2);
       base64_char (sextet n 1); pad_char]
  | a :: b :: c :: rest =>
      let n := a * 65536 + b * 256 + c in
      base64_char (sextet n 3) :: base64_char (sextet n 2)
      :: base64_char (sextet n 1) :: base64_char (sextet n 0) :: base64 rest
  end.

(** "substituting [+] by [-] and [/] by [_]". *)
Definition url_substitute (c : code_unit) : code_unit :=
  if c =? 43 then 45 else if c =? 47 then 95 else c.

Fixpoint drop_leading_pad (s : jsstring) : jsstring :=
  match s with
  | [] => []
  | c :: r => if c =? pad_char then drop_leading_pad r else s
  end.

(** "stripping all trailing [=] padding characters". *)
Definition strip_padding (s : jsstring) : jsstring :=
  rev (drop_leading_pad (rev s)).

Definition encode (s : jsstring) : jsstring :=
  strip_padding (map url_substitute (base64 (utf8_bytes s))).

(** The string does not begin with whitespace. *)
Definition no_lead (s : jsstring) : Prop :=
  match s with
  | [] => True
  | u :: _ => is_whitespace u = false
  end.

(** The string does not end with whitespace. *)
Definition no_trail (s : jsstring) : Prop := trimEnd s = s.

(** The numbers below [n], for exhaustive checks over a bounded range. *)
Definition below (n : nat) : list N := map N.of_nat (seq 0 n).

(** Membership in [[A-Za-z0-9_-]]. *)
Definition url_safe_char (c : code_unit) : bool :=
  ((65 <=? c) && (c <=? 90)) || ((97 <=? c) && (c <=? 122))
  || ((48 <=? c) && (c <=? 57)) || (c =? 45) || (c =? 95).

End Spec.

(** "normalized-equal": [normalize(a) == normalize(b)]. *)
Definition normalized_equal (toLowerCase : jsstring -> jsstring) (a b : jsstring) : Prop :=
  normalizeText toLowerCase a = normalizeText toLowerCase b.

(** "[matches(a, b)]" as the specification words it. *)
Definition spec_matches (toLowerCase : jsstring -> jsstring) (a b : jsstring) : Prop :=
  normalizeText toLowerCase a = normalizeText toLowerCase b
  \/ Spec.contains (normalizeText toLowerCase a) (normalizeText toLowerCase b)
  \/ Spec.contains (normalizeText toLowerCase b) (normalizeText toLowerCase a).

(** ** Concrete runs

    The scenarios of section 8 of the specification and the inputs at which
    the claims are evaluated. *)
Module Scenario.

Definition the_daily : ApplePodcastResult :=
  {| collectionId := SafeInteger 1234567890;
     collectionName := js "The Daily";
     feedUrl := Some (js "https://example.test/feed") |}.

Definition the_daily_show : ApplePodcastResult :=
  {| collectionId := SafeInteger 42;
     collectionName := js "The Daily Show";
     feedUrl := Some (js "https://example.test/show") |}.

Definition latest_episode : RSSItem :=
  {| title := js "Latest Episode"; guid := GuidString (js "guid-1") |}.

Definition ep1 : RSSItem := {| title := js "Ep1"; guid := GuidString (js "g1") |}.
Definition ep2 : RSSItem := {| title := js "Ep2"; guid := GuidObject (js "g2") |}.

(** An entry whose [<guid>] element is empty. *)
Definition no_guid_episode : RSSItem :=
  {| title := js "Latest Episode"; guid := GuidString [] |}.

Definition feed_of (items : Items) : RSSFeed :=
  {| rss := Some {| channel := Some {| channel_title := js "The Daily";
                                       item := items |} |} |}.

Definition directory_of (count : Z) (shows : list ApplePodcastResult)
  : jsstring -> Reply AppleSearchResponse :=
  fun _ => HttpResponse 200 (inr {| resultCount := count; results := shows |}).

(** The end-to-end scenario: one exact-match show, one entry. *)
Definition w_scenario : World :=
  {| directory := directory_of 1 [the_daily];
     feed := fun _ => HttpResponse 200 (inr (feed_of (OneItem latest_episode))) |}.

(** The feed server answers 503. *)
Definition w_feed_down : World :=
  {| directory := directory_of 1 [the_daily];
     feed := fun _ => HttpResponse 503 (inr {| rss := None |}) |}.

(** The feed server answers 200 with a document that has no channel. *)
Definition w_no_channel : World :=
  {| directory := directory_of 1 [the_daily];
     feed := fun _ => HttpResponse 200 (inr {| rss := Some {| channel := None |} |}) |}.

(** The matched entry has an empty identifier. *)
Definition w_empty_guid : World :=
  {| directory := directory_of 1 [the_daily];
     feed := fun _ => HttpResponse 200 (inr (feed_of (OneItem no_guid_episode))) |}.

(** The directory reports a count of zero next to a non-empty list. *)
Definition w_count_zero : World :=
  {| directory := directory_of 0 [the_daily];
     feed := fun _ => HttpResponse 200 (inr (feed_of (OneItem latest_episode))) |}.

(** Two shows, the fuzzy-containing one first. *)
Definition w_two_shows : World :=
  {| directory := directory_of 2 [the_daily_show; the_daily];
     feed := fun _ => HttpResponse 200 (inr (feed_of (ManyItems [ep1; ep2]))) |}.

End Scenario.

(** ** Vocabulary of the further properties (Part III) *)
Module Shape.

(** Every whitespace code unit of the string is a space, and what follows
    it does not begin with whitespace. *)
Fixpoint single_spaced (s : jsstring) : Prop :=
  match s with
  | [] => True
  | u :: r =>
      (is_whitespace u = true -> u = 32 /\ Spec.no_lead r) /\ single_spaced r
  end.

(** The string has no lone surrogate: every high surrogate is followed by a
    low surrogate, and every low surrogate follows a high one. *)
Fixpoint well_paired (s : jsstring) : bool :=
  match s with
  | [] => true
  | u :: r =>
      if is_high_surrogate u then
        match r with
        | v :: r' => is_low_surrogate v && well_paired r'
        | [] => false
        end
      else negb (is_low_surrogate u) && well_paired r
  end.

(** What [toUrlSafeBase64] does to the octets [TextEncoder] returns. *)
Definition url_token (bs : list N) : jsstring :=
  replace_trailing_pad (map Spec.url_substitute (base64_encode bs)).

(** The 6-bit value of a character of the URL-safe alphabet. *)
Definition sextet_of_char (c : code_unit) : N :=
  if (65 <=? c) && (c <=? 90) then c - 65
  else if (97 <=? c) && (c <=? 122) then c - 97 + 26
  else if (48 <=? c) && (c <=? 57) then c - 48 + 52
  else if c =? 45 then 62
  else 63.

(** Reading a token back: four characters give three octets, a final group
    of two or three characters gives one or two. *)
Fixpoint octets_of_token (cs : jsstring) : list N :=
  match cs with
  | c0 :: c1 :: c2 :: c3 :: rest =>
      let d0 := sextet_of_char c0 in
      let d1 := sextet_of_char c1 in
      let d2 := sextet_of_char c2 in
      let d3 := sextet_of_char c3 in
      (d0 * 4 + d1 / 16) :: ((d1 mod 16) * 16 + d2 / 4) :: ((d2 mod 4) * 64 + d3)
      :: octets_of_token rest
  | [c0; c1; c2] =>
      let d0 := sextet_of_char c0 in
      let d1 := sextet_of_char c1 in
      let d2 := sextet_of_char c2 in
      [d0 * 4 + d1 / 16; (d1 mod 16) * 16 + d2 / 4]
  | [c0; c1] =>
      [sextet_of_char c0 * 4 + sextet_of_char c1 / 16]
  | _ => []
  end.

(** The same feed with every identifier given as a plain string. *)
Definition plain_entry (entry : RSSItem) : RSSItem :=
  {| title := title entry; guid := GuidString (extractGuid (guid entry)) |}.

Definition plain_items (items : Items) : Items :=
  match items with
  | NoItem => NoItem
  | OneItem entry => OneItem (plain_entry entry)
  | ManyItems entries => ManyItems (map plain_entry entries)
  end.

Definition plain_feed (parsed : RSSFeed) : RSSFeed :=
  {| rss :=
       option_map
         (fun root =>
            {| channel :=
                 option_map
                   (fun ch => {| channel_title := channel_title ch;
                                 item := plain_items (item ch) |})
                   (channel root) |})
         (rss parsed) |}.

Definition plain_reply (reply : Reply RSSFeed) : Reply RSSFeed :=
  match reply with
  | NetworkError m => NetworkError m
  | HttpResponse st (inl m) => HttpResponse st (inl m)
  | HttpResponse st (inr parsed) => HttpResponse st (inr (plain_feed parsed))
  end.

Definition plain_world (w : World) : World :=
  {| directory := directory w; feed := fun u => plain_reply (feed w u) |}.

End Shape.

(** Further concrete runs: the failure modes of the two collaborators. *)
Module Failing.

Definition no_feed_show : ApplePodcastResult :=
  {| collectionId := SafeInteger 7; collectionName := js "No Feed"; feedUrl := None |}.

(** The directory answers 503. *)
Definition w_directory_down : World :=
  {| directory := fun _ => HttpResponse 503 (inl (js "unused"));
     feed := feed Scenario.w_scenario |}.

(** The directory has no result. *)
Definition w_no_results : World :=
  {| directory := Scenario.directory_of 0 [];
     feed := feed Scenario.w_scenario |}.

(** The only candidate has no feed URL. *)
Definition w_no_feed_url : World :=
  {| directory := Scenario.directory_of 1 [no_feed_show];
     feed := feed Scenario.w_scenario |}.

(** The feed has a channel and no entry. *)
Definition w_no_entries : World :=
  {| directory := Scenario.directory_of 1 [Scenario.the_daily];
     feed := fun _ => HttpResponse 200 (inr (Scenario.feed_of NoItem)) |}.

(** The feed server cannot be reached. *)
Definition w_feed_unreachable : World :=
  {| directory := Scenario.directory_of 1 [Scenario.the_daily];
     feed := fun _ => NetworkError (js "fetch failed") |}.

(** The feed of the scenario is served, every other URL answers 503. *)
Definition w_other_feeds_down : World :=
  {| directory := directory Scenario.w_scenario;
     feed := fun u =>
               if str_eqb u (js "https://example.test/feed")
               then feed Scenario.w_scenario u
               else HttpResponse 503 (inl (js "unused")) |}.

(** A POST whose body is the JSON text [null]. *)
Definition request_null_body : Request :=
  {| method := POST; json := inr JsonNull |}.

(** A request without [episodeTitle]. *)
Definition request_without_title : Request :=
  {| method := POST;
     json := inr (JsonValue {| showName_field := FieldString (js "The Daily");
                               episodeTitle_field := FieldAbsent |}) |}.

End Failing.

(* ===================================================================== *)
(** * Part II.  Properties                                                *)
(* ===================================================================== *)

(** ** Facts about the platform built-ins *)

Module JSFacts.

Lemma str_eqb_eq (s t : jsstring) : str_eqb s t = true <-> s = t.
Proof.
  revert t; induction s as [|c s IH]; intros [|d t]; simpl; split;
    try reflexivity; try discriminate.
  - rewrite andb_true_iff, N.eqb_eq, IH. intros [-> ->]; reflexivity.
  - intros H; injection H as -> ->.
    rewrite andb_true_iff, N.eqb_eq, IH. split; reflexivity.
Qed.

Lemma str_eqb_refl (s : jsstring) : str_eqb s s = true.
Proof. apply str_eqb_eq; reflexivity. Qed.

Lemma str_eqb_sym (s t : jsstring) : str_eqb s t = str_eqb t s.
Proof.
  destruct (str_eqb s t) eqn:E.
  - apply str_eqb_eq in E; subst. symmetry; apply str_eqb_refl.
  - destruct (str_eqb t s) eqn:E'; [|reflexivity].
    apply str_eqb_eq in E'; subst. rewrite str_eqb_refl in E. discriminate.
Qed.

Lemma startsWith_spec (s t : jsstring) :
  startsWith s t = true <-> exists post, s = t ++ post.
Proof.
  revert s; induction t as [|d t IH]; intros s; simpl.
  - split; [intros _; exists s; reflexivity | intros _; destruct s; reflexivity].
  - destruct s as [|c s]; simpl.
    + split; [discriminate | intros [post H]; discriminate].
    + rewrite andb_true_iff, N.eqb_eq, IH. split.
      * intros [-> [post ->]]. exists post; reflexivity.
      * intros [post H]. injection H as -> ->. split; [reflexivity | eauto].
Qed.

Lemma includes_spec (s t : jsstring) :
  includes s t = true <-> Spec.contains s t.
Proof.
  unfold Spec.contains. induction s as [|c s IH].
  - cbn [includes]. rewrite orb_false_r, startsWith_spec. split.
    + intros [post H]. exists [], post. exact H.
    + intros [pre [post H]]. destruct pre; simpl in H.
      * exists post; exact H.
      * discriminate.
  - cbn [includes]. rewrite orb_true_iff, startsWith_spec, IH. split.
    + intros [[post H] | [pre [post H]]].
      * exists [], post. exact H.
      * exists (c :: pre), post. simpl. rewrite H. reflexivity.
    + intros [pre [post H]]. destruct pre as [|c' pre]; simpl in H.
      * left. exists post; exact H.
      * right. injection H as _ H. exists pre, post; exact H.
Qed.

End JSFacts.

(** ** Whitespace: [trim] and the replacement of whitespace runs *)

Module Whitespace.

Lemma space_is_whitespace : is_whitespace 32 = true.
Proof. reflexivity. Qed.

Lemma no_lead_trimStart s : Spec.no_lead (trimStart s).
Proof.
  induction s as [|u r IH]; simpl; [exact I|].
  destruct (is_whitespace u) eqn:E; [exact IH | exact E].
Qed.

Lemma trimStart_no_lead s : Spec.no_lead s -> trimStart s = s.
Proof. destruct s as [|u r]; simpl; [reflexivity|]. intros ->; reflexivity. Qed.

Lemma no_lead_trimEnd s : Spec.no_lead s -> Spec.no_lead (trimEnd s).
Proof.
  destruct s as [|u r]; simpl; [exact id|]. intros E.
  destruct (trimEnd r); [rewrite E|]; exact E.
Qed.

Lemma no_lead_replace s : Spec.no_lead s -> Spec.no_lead (replace_ws_runs s).
Proof.
  destruct s as [|u r]; unfold replace_ws_runs; simpl; [exact id|].
  intros E; rewrite E; exact E.
Qed.

Lemma trimEnd_idem s : Spec.no_trail (trimEnd s).
Proof.
  unfold Spec.no_trail. induction s as [|u r IH]; simpl; [reflexivity|].
  destruct (trimEnd r) as [|c r'] eqn:E.
  - destruct (is_whitespace u) eqn:W; simpl; [reflexivity | rewrite W; reflexivity].
  - change (trimEnd (u :: c :: r')) with
      (match trimEnd (c :: r') with
       | [] => if is_whitespace u then [] else [u]
       | x => u :: x
       end).
    rewrite IH; reflexivity.
Qed.

(** A replacement that leaves nothing consumed only whitespace. *)
Lemma replace_nil_all_ws b s : replace_ws_from b s = [] -> trimEnd s = [].
Proof.
  revert b; induction s as [|u r IH]; intros b; simpl; [reflexivity|].
  destruct (is_whitespace u); [|discriminate].
  destruct b; [|discriminate].
  intros H; rewrite (IH _ H); reflexivity.
Qed.

Lemma no_trail_replace b s : Spec.no_trail s -> Spec.no_trail (replace_ws_from b s).
Proof.
  unfold Spec.no_trail. revert b; induction s as [|u r IH]; intros b; [reflexivity|].
  cbn [trimEnd]. destruct (trimEnd r) as [|c r'] eqn:E.
  - destruct (is_whitespace u) eqn:W; [discriminate|].
    intros H; injection H as <-. simpl. rewrite W. simpl. rewrite W. reflexivity.
  - intros H; injection H as H.
    assert (NE : forall b', replace_ws_from b' r <> []).
    { intros b' Hn. apply replace_nil_all_ws in Hn. rewrite E in Hn; discriminate. }
    cbn [replace_ws_from]. destruct (is_whitespace u) eqn:W.
    + destruct b; [apply IH; exact H|].
      cbn [trimEnd]. rewrite (IH true H).
      destruct (replace_ws_from true r) eqn:R; [exfalso; exact (NE true R) | reflexivity].
    + cbn [trimEnd]. rewrite (IH false H).
      destruct (replace_ws_from false r) eqn:R; [rewrite W|]; reflexivity.
Qed.

Lemma replace_ws_from_idem b s :
  replace_ws_from b (replace_ws_from b s) = replace_ws_from b s.
Proof.
  revert b; induction s as [|u r IH]; intros b; simpl; [reflexivity|].
  destruct (is_whitespace u) eqn:W.
  - destruct b; [apply IH|].
    simpl. rewrite IH. reflexivity.
  - simpl. rewrite W, IH. reflexivity.
Qed.

Lemma trim_fixed s : Spec.no_lead s -> Spec.no_trail s -> trim s = s.
Proof. intros L T. unfold trim. rewrite (trimStart_no_lead _ L). exact T. Qed.

(** A trimmed string whose whitespace runs were replaced is left alone by
    another trim and another replacement. *)
Lemma replace_trim_fixed t :
  replace_ws_runs (trim (replace_ws_runs (trim t))) = replace_ws_runs (trim t).
Proof.
  rewrite (trim_fixed (replace_ws_runs (trim t))).
  - apply replace_ws_from_idem.
  - apply no_lead_replace, no_lead_trimEnd, no_lead_trimStart.
  - apply no_trail_replace, trimEnd_idem.
Qed.

(** Whatever holds of every code unit and of the space survives trimming
    and replacement. *)
Lemma Forall_trimStart P s : Forall P s -> Forall P (trimStart s).
Proof.
  induction 1 as [|u r Hu Hr IH]; simpl; [constructor|].
  destruct (is_whitespace u); [exact IH | constructor; assumption].
Qed.

Lemma Forall_trimEnd P s : Forall P s -> Forall P (trimEnd s).
Proof.
  induction 1 as [|u r Hu Hr IH]; simpl; [constructor|].
  destruct (trimEnd r).
  - destruct (is_whitespace u); repeat constructor; assumption.
  - constructor; assumption.
Qed.

Lemma Forall_replace (P : code_unit -> Prop) b s :
  P 32 -> Forall P s -> Forall P (replace_ws_from b s).
Proof.
  intros Hsp H; revert b. induction H as [|u r Hu Hr IH]; intros b; simpl; [constructor|].
  destruct (is_whitespace u); [destruct b|]; try constructor; auto.
Qed.

End Whitespace.

(** ** UTF-8 and base64: the bitwise code against the arithmetic reading *)

Module Encoding.

Ltac nlia := zify; Z.to_euclidean_division_equations; lia.

Lemma forallb_below (P : N -> bool) (n : nat) :
  forallb P (Spec.below n) = true -> forall x, x < N.of_nat n -> P x = true.
Proof.
  intros H x Hx. rewrite forallb_forall in H. apply H.
  unfold Spec.below. rewrite <- (N2Nat.id x). apply in_map, in_seq. lia.
Qed.

(** Setting the marker bits of a UTF-8 octet adds the marker: the payload
    below it is disjoint.  Checked on every payload value. *)
Lemma lor_marker (m : N) (n : nat) :
  forallb (fun x => N.lor m x =? m + x) (Spec.below n) = true ->
  forall x, x < N.of_nat n -> N.lor m x = m + x.
Proof.
  intros H x Hx. apply N.eqb_eq.
  exact (forallb_below (fun x => N.lor m x =? m + x) n H x Hx).
Qed.

Lemma lor_128 x : x < 64 -> N.lor 128 x = 128 + x.
Proof. apply (lor_marker 128 64). vm_compute. reflexivity. Qed.

Lemma lor_192 x : x < 32 -> N.lor 192 x = 192 + x.
Proof. apply (lor_marker 192 32). vm_compute. reflexivity. Qed.

Lemma lor_224 x : x < 16 -> N.lor 224 x = 224 + x.
Proof. apply (lor_marker 224 16). vm_compute. reflexivity. Qed.

Lemma lor_240 x : x < 8 -> N.lor 240 x = 240 + x.
Proof. apply (lor_marker 240 8). vm_compute. reflexivity. Qed.

(** Joining the low bits of one octet, shifted, with the high bits of the
    next is their sum. *)
Lemma lor_shifted (k : N) (n m : nat) :
  forallb (fun x => forallb (fun y => N.lor (x * k) y =? x * k + y) (Spec.below m)) (Spec.below n) = true ->
  forall x y, x < N.of_nat n -> y < N.of_nat m -> N.lor (x * k) y = x * k + y.
Proof.
  intros H x y Hx Hy. apply N.eqb_eq.
  pose proof (forallb_below _ n H x Hx) as Hrow. cbv beta in Hrow.
  exact (forallb_below (fun y => N.lor (x * k) y =? x * k + y) m Hrow y Hy).
Qed.

Lemma lor_2_4 x y : x < 4 -> y < 16 -> N.lor (x * 16) y = x * 16 + y.
Proof. apply (lor_shifted 16 4 16). vm_compute. reflexivity. Qed.

Lemma lor_4_2 x y : x < 16 -> y < 4 -> N.lor (x * 4) y = x * 4 + y.
Proof. apply (lor_shifted 4 16 4). vm_compute. reflexivity. Qed.

Lemma land_3 a : N.land a 3 = a mod 4.
Proof. exact (N.land_ones a 2). Qed.

Lemma land_15 a : N.land a 15 = a mod 16.
Proof. exact (N.land_ones a 4). Qed.

Lemma land_63 a : N.land a 63 = a mod 64.
Proof. exact (N.land_ones a 6). Qed.

Lemma to_uint8_small x : x < 256 -> to_uint8 x = x.
Proof. apply N.mod_small. Qed.

Ltac arith_form :=
  rewrite ?N.shiftr_div_pow2, ?N.shiftl_mul_pow2, ?land_3, ?land_15, ?land_63;
  change (2 ^ 2) with 4; change (2 ^ 4) with 16; change (2 ^ 6) with 64;
  change (2 ^ 12) with 4096; change (2 ^ 18) with 262144.

Ltac store_small :=
  repeat match goal with
         | |- context [to_uint8 ?x] => rewrite (to_uint8_small x) by nlia
         end.

(** *** UTF-8 *)

Lemma utf8_encode_scalar_spec cp :
  cp < 1114112 -> utf8_encode_scalar cp = Spec.utf8 cp.
Proof.
  intros Hcp. unfold utf8_encode_scalar, Spec.utf8.
  destruct (N.ltb_spec cp 128); [|destruct (N.ltb_spec cp 2048); [|destruct (N.ltb_spec cp 65536)]];
    arith_form; cbn [map].
  - store_small. reflexivity.
  - rewrite lor_192, lor_128 by nlia. store_small. reflexivity.
  - rewrite lor_224, !lor_128 by nlia. store_small. reflexivity.
  - rewrite lor_240, !lor_128 by nlia. store_small. reflexivity.
Qed.

(** Strings are read one or two code units at a time. *)
Lemma pair_ind (P : jsstring -> Prop) :
  P [] ->
  (forall u r, P r -> (forall v r', r = v :: r' -> P r') -> P (u :: r)) ->
  forall s, P s.
Proof.
  intros Hnil Hcons s.
  enough (H : P s /\ forall v r', s = v :: r' -> P r') by exact (proj1 H).
  induction s as [|u r [IH1 IH2]].
  - split; [exact Hnil | discriminate].
  - split; [apply Hcons; assumption|].
    intros v r' E; injection E as _ <-. exact IH1.
Qed.

Lemma to_scalar_values_bound s :
  Spec.wf_string s -> Forall (fun cp => cp < 1114112) (to_scalar_values s).
Proof.
  unfold Spec.wf_string.
  induction s as [|u r IH1 IH2] using pair_ind; intros H; [constructor|].
  inversion H as [|? ? Hu Hr]; subst. cbn [to_scalar_values].
  destruct (is_high_surrogate u) eqn:Hh.
  - destruct r as [|v r'].
    + repeat constructor.
    + destruct (is_low_surrogate v) eqn:Hl.
      * constructor.
        -- unfold is_high_surrogate, is_low_surrogate in *.
           rewrite N.shiftl_mul_pow2. change (2 ^ 10) with 1024.
           apply andb_true_iff in Hh as [_ Hh]. apply andb_true_iff in Hl as [_ Hl].
           apply N.leb_le in Hh, Hl. lia.
        -- apply (IH2 v r' eq_refl). inversion Hr; assumption.
      * constructor; [lia | apply IH1; exact Hr].
  - destruct (is_low_surrogate u); constructor; try lia; apply IH1; exact Hr.
Qed.

Lemma flat_map_Forall_ext {A B} (f g : A -> list B) (P : A -> Prop) l :
  (forall x, P x -> f x = g x) -> Forall P l -> flat_map f l = flat_map g l.
Proof.
  intros E; induction 1 as [|x l Hx Hl IH]; simpl; [reflexivity|].
  rewrite (E x Hx), IH. reflexivity.
Qed.

Lemma TextEncoder_encode_spec s :
  Spec.wf_string s -> TextEncoder_encode s = Spec.utf8_bytes s.
Proof.
  intros H. unfold TextEncoder_encode, Spec.utf8_bytes.
  apply (flat_map_Forall_ext _ _ (fun cp => cp < 1114112)).
  - exact utf8_encode_scalar_spec.
  - apply to_scalar_values_bound; exact H.
Qed.

Lemma TextEncoder_encode_octets s :
  Forall (fun b => b < 256) (TextEncoder_encode s).
Proof.
  unfold TextEncoder_encode. induction (to_scalar_values s) as [|cp l IH]; simpl.
  - constructor.
  - apply Forall_app; split; [|exact IH].
    unfold utf8_encode_scalar. apply Forall_forall. intros b Hb.
    apply in_map_iff in Hb as [x [<- _]]. unfold to_uint8.
    apply N.mod_lt. discriminate.
Qed.

End Encoding.

Module Base64.
Import Encoding.

(** Octets are consumed three at a time. *)
Lemma triple_ind {A} (P : list A -> Prop) :
  P [] -> (forall a, P [a]) -> (forall a b, P [a; b]) ->
  (forall a b c rest, P rest -> P (a :: b :: c :: rest)) ->
  forall l, P l.
Proof.
  intros H0 H1 H2 H3.
  refine (fix go l :=
            match l with
            | [] => H0
            | [a] => H1 a
            | [a; b] => H2 a b
            | a :: b :: c :: rest => H3 a b c rest (go rest)
            end).
Qed.

Section Sextets.
Variables a b c : N.
Hypothesis Ha : a < 256.
Hypothesis Hb : b < 256.
Hypothesis Hc : c < 256.

Lemma sextet_3 : N.shiftr a 2 = Spec.sextet (a * 65536 + b * 256 + c) 3.
Proof. unfold Spec.sextet. change (64 ^ 3) with 262144. arith_form. nlia. Qed.

Lemma sextet_2 :
  N.lor (N.shiftl (N.land a 3) 4) (N.shiftr b 4)
  = Spec.sextet (a * 65536 + b * 256 + c) 2.
Proof.
  unfold Spec.sextet. change (64 ^ 2) with 4096. arith_form.
  rewrite lor_2_4 by nlia. nlia.
Qed.

Lemma sextet_1 :
  N.lor (N.shiftl (N.land b 15) 2) (N.shiftr c 6)
  = Spec.sextet (a * 65536 + b * 256 + c) 1.
Proof.
  unfold Spec.sextet. change (64 ^ 1) with 64. arith_form.
  rewrite lor_4_2 by nlia. nlia.
Qed.

Lemma sextet_0 : N.land c 63 = Spec.sextet (a * 65536 + b * 256 + c) 0.
Proof. unfold Spec.sextet. change (64 ^ 0) with 1. arith_form. nlia. Qed.

End Sextets.

(** A final quantum of one or two octets: the missing octets count as 0. *)
Lemma sextet_2_final a : N.shiftl (N.land a 3) 4 = Spec.sextet (a * 65536) 2.
Proof. unfold Spec.sextet. change (64 ^ 2) with 4096. arith_form. nlia. Qed.

Lemma sextet_1_final a b :
  b < 256 -> N.shiftl (N.land b 15) 2 = Spec.sextet (a * 65536 + b * 256) 1.
Proof. intros Hb. unfold Spec.sextet. change (64 ^ 1) with 64. arith_form. nlia. Qed.

Lemma sextet_3_final1 a : a < 256 -> N.shiftr a 2 = Spec.sextet (a * 65536) 3.
Proof. intros Ha. unfold Spec.sextet. change (64 ^ 3) with 262144. arith_form. nlia. Qed.

Lemma sextet_3_final2 a b :
  a < 256 -> b < 256 -> N.shiftr a 2 = Spec.sextet (a * 65536 + b * 256) 3.
Proof. intros Ha Hb. unfold Spec.sextet. change (64 ^ 3) with 262144. arith_form. nlia. Qed.

Lemma sextet_2_final2 a b :
  a < 256 -> b < 256 ->
  N.lor (N.shiftl (N.land a 3) 4) (N.shiftr b 4) = Spec.sextet (a * 65536 + b * 256) 2.
Proof.
  intros Ha Hb. unfold Spec.sextet. change (64 ^ 2) with 4096. arith_form.
  rewrite lor_2_4 by nlia. nlia.
Qed.

(** The encoder loop computes standard base64 on octets. *)
Lemma base64_encode_spec bs :
  Forall (fun b => b < 256) bs -> base64_encode bs = Spec.base64 bs.
Proof.
  induction bs as [|a|a b|a b c rest IH] using triple_ind; intros H.
  - reflexivity.
  - inversion H; subst. cbn [base64_encode Spec.base64].
    rewrite <- sextet_3_final1, <- sextet_2_final by assumption. reflexivity.
  - inversion H as [|? ? Ha H']; subst. inversion H' as [|? ? Hb _]; subst.
    cbn [base64_encode Spec.base64].
    rewrite <- sextet_3_final2, <- sextet_2_final2, <- sextet_1_final by assumption.
    reflexivity.
  - inversion H as [|? ? Ha H']; subst. inversion H' as [|? ? Hb H'']; subst.
    inversion H'' as [|? ? Hc Hrest]; subst.
    cbn [base64_encode Spec.base64].
    rewrite <- (sextet_3 a b c), <- (sextet_2 a b c), <- (sextet_1 a b c),
      <- (sextet_0 a b c) by assumption.
    rewrite (IH Hrest). reflexivity.
Qed.

(** *** The alphabet *)

Ltac bool_cases :=
  repeat (match goal with
          | |- context [N.ltb ?x ?y] => destruct (N.ltb_spec x y)
          | |- context [N.leb ?x ?y] => destruct (N.leb_spec x y)
          | |- context [N.eqb ?x ?y] => destruct (N.eqb_spec x y)
          end; cbv iota).

(** Every alphabet character, once [+] and [/] are substituted, is in
    [[A-Za-z0-9_-]]. *)
Lemma base64_char_range i :
  let c := base64_char i in
  65 <= c <= 90 \/ 97 <= c <= 122 \/ 48 <= c <= 57 \/ c = 43 \/ c = 47.
Proof. unfold base64_char. bool_cases; lia. Qed.

Lemma base64_char_url_safe i :
  Spec.url_safe_char (Spec.url_substitute (base64_char i)) = true.
Proof.
  pose proof (base64_char_range i) as R. cbv zeta in R.
  generalize dependent (base64_char i). intros c R.
  unfold Spec.url_substitute.
  destruct (N.eqb_spec c 43); [reflexivity|].
  destruct (N.eqb_spec c 47); [reflexivity|].
  unfold Spec.url_safe_char. bool_cases; try reflexivity; lia.
Qed.

Lemma url_safe_not_pad c : Spec.url_safe_char c = true -> c <> pad_char.
Proof. intros H ->. discriminate. Qed.

Lemma url_substitute_pad : Spec.url_substitute pad_char = pad_char.
Proof. reflexivity. Qed.

(** The two global replacements of the source are the substitution. *)
Lemma replace_all_char_spec s :
  replace_all_char 47 95 (replace_all_char 43 45 s) = map Spec.url_substitute s.
Proof.
  unfold replace_all_char. rewrite map_map. apply map_ext. intros u.
  unfold Spec.url_substitute. bool_cases; try reflexivity; try lia; discriminate.
Qed.

(** Base64 text is a body over the alphabet followed by padding. *)
Lemma base64_encode_shape bs :
  exists body pads,
    map Spec.url_substitute (base64_encode bs) = body ++ pads
    /\ Forall (fun c => Spec.url_safe_char c = true) body
    /\ Forall (fun c => c = pad_char) pads.
Proof.
  induction bs as [|a|a b|a b c rest IH] using triple_ind.
  - exists [], []. repeat split; constructor.
  - eexists [_; _], [_; _]. cbn [base64_encode map app]. split; [reflexivity|].
    split; repeat constructor; apply base64_char_url_safe.
  - eexists [_; _; _], [_]. cbn [base64_encode map app]. split; [reflexivity|].
    split; repeat constructor; apply base64_char_url_safe.
  - destruct IH as [body [pads [E [Hb Hp]]]].
    eexists (_ :: _ :: _ :: _ :: body), pads. cbn [base64_encode map app].
    rewrite E. split; [reflexivity|].
    split; [|exact Hp]. repeat constructor; try apply base64_char_url_safe. exact Hb.
Qed.

(** *** Removing the padding *)

Lemma replace_trailing_pad_all s :
  forallb (N.eqb pad_char) s = true -> replace_trailing_pad s = [].
Proof. destruct s as [|u r]; [reflexivity|]. cbn [replace_trailing_pad]. intros ->. reflexivity. Qed.

Lemma drop_leading_pad_snoc s u :
  Spec.drop_leading_pad (s ++ [u])
  = if forallb (N.eqb pad_char) s
    then (if pad_char =? u then [] else [u])
    else Spec.drop_leading_pad s ++ [u].
Proof.
  induction s as [|c r IH]; cbn [app Spec.drop_leading_pad forallb].
  - rewrite (N.eqb_sym u pad_char). destruct (pad_char =? u); reflexivity.
  - rewrite (N.eqb_sym c pad_char). destruct (pad_char =? c); cbn [andb].
    + exact IH.
    + reflexivity.
Qed.

Lemma forallb_rev {A} (f : A -> bool) l : forallb f (rev l) = forallb f l.
Proof.
  induction l as [|x l IH]; [reflexivity|].
  cbn [rev forallb]. rewrite forallb_app, IH. cbn [forallb].
  rewrite andb_true_r. apply andb_comm.
Qed.

(** The anchored replacement [/=+$/] strips exactly the trailing padding. *)
Lemma replace_trailing_pad_spec s : replace_trailing_pad s = Spec.strip_padding s.
Proof.
  unfold Spec.strip_padding. induction s as [|u r IH]; [reflexivity|].
  cbn [replace_trailing_pad rev forallb]. rewrite drop_leading_pad_snoc, forallb_rev.
  destruct (forallb (N.eqb pad_char) r) eqn:All.
  - rewrite andb_true_r. destruct (pad_char =? u); [reflexivity|].
    rewrite (replace_trailing_pad_all r All). reflexivity.
  - rewrite andb_false_r, rev_app_distr, IH. reflexivity.
Qed.

Lemma replace_trailing_pad_shape body pads :
  Forall (fun c => c <> pad_char) body -> Forall (fun c => c = pad_char) pads ->
  replace_trailing_pad (body ++ pads) = body.
Proof.
  intros Hb Hp. induction Hb as [|c body Hc Hb IH]; cbn [app].
  - apply replace_trailing_pad_all. induction Hp as [|p pads -> _ IHp]; [reflexivity|].
    cbn [forallb]. rewrite IHp. reflexivity.
  - cbn [replace_trailing_pad forallb].
    destruct (N.eqb_spec pad_char c) as [E|_]; [congruence|].
    cbn [andb]. rewrite IH. reflexivity.
Qed.

End Base64.

(** ** [Array.prototype.find] against "the first such" *)

Module Find.

Section Reflect.
Context {A : Type} (f : A -> bool) (P : A -> Prop).
Hypothesis f_reflects : forall x, f x = true <-> P x.

Lemma find_first l x : Spec.first_such P l x -> find f l = Some x.
Proof.
  intros [pre [post [-> [Hx Hpre]]]].
  induction pre as [|y pre IH]; cbn [app find].
  - rewrite (proj2 (f_reflects x) Hx). reflexivity.
  - destruct (f y) eqn:E.
    + exfalso. apply (Hpre y); [left; reflexivity | apply f_reflects; exact E].
    + apply IH. intros z Hz. apply Hpre. right; exact Hz.
Qed.

Lemma find_none l : Spec.none_such P l -> find f l = None.
Proof.
  intros H. induction l as [|y l IH]; [reflexivity|]. cbn [find].
  destruct (f y) eqn:E.
  - exfalso. apply (H y); [left; reflexivity | apply f_reflects; exact E].
  - apply IH. intros z Hz. apply H. right; exact Hz.
Qed.

Lemma find_some_first l x : find f l = Some x -> Spec.first_such P l x.
Proof.
  induction l as [|y l IH]; cbn [find]; [discriminate|].
  destruct (f y) eqn:E.
  - intros H; injection H as <-. exists [], l. split; [reflexivity|].
    split; [apply f_reflects; exact E | intros ? []].
  - intros H. destruct (IH H) as [pre [post [-> [Hx Hpre]]]].
    exists (y :: pre), post. split; [reflexivity|]. split; [exact Hx|].
    intros z [<- | Hz]; [|apply Hpre; exact Hz].
    intros Hy. apply f_reflects in Hy. congruence.
Qed.

End Reflect.

End Find.

(** ** [toLowerCase] on ASCII *)

Module AsciiLower.

Lemma lower_idem u : ascii_lower (ascii_lower u) = ascii_lower u.
Proof.
  unfold ascii_lower.
  destruct (N.leb_spec 65 u), (N.leb_spec u 90); cbn [andb];
    repeat match goal with
           | |- context [N.leb ?x ?y] => destruct (N.leb_spec x y)
           end; cbn [andb]; try reflexivity; lia.
Qed.

Lemma idempotent s : ascii_toLowerCase (ascii_toLowerCase s) = ascii_toLowerCase s.
Proof.
  unfold ascii_toLowerCase. rewrite map_map. apply map_ext. exact lower_idem.
Qed.

Lemma fixed_iff s : ascii_toLowerCase s = s <-> Forall (fun u => ascii_lower u = u) s.
Proof.
  unfold ascii_toLowerCase.
  induction s as [|u r IH]; cbn [map].
  - split; [constructor | reflexivity].
  - split.
    + intros H; injection H as Hu Hr. constructor; [exact Hu | apply IH; exact Hr].
    + intros H; inversion H as [|? ? Hu Hr]; subst.
      rewrite Hu, (proj2 IH Hr). reflexivity.
Qed.

(** A lowercase string stays lowercase when it is trimmed and its
    whitespace runs are replaced by spaces. *)
Lemma whitespace_stable t :
  ascii_toLowerCase t = t ->
  ascii_toLowerCase (replace_ws_runs (trim t)) = replace_ws_runs (trim t).
Proof.
  rewrite !fixed_iff. intros H. unfold replace_ws_runs, trim.
  apply Whitespace.Forall_replace; [reflexivity|].
  apply Whitespace.Forall_trimEnd, Whitespace.Forall_trimStart. exact H.
Qed.

End AsciiLower.

(* ===================================================================== *)
(** ** The claims about the text helpers                                  *)
(* ===================================================================== *)

Section TextClaims.

Variable toLowerCase : jsstring -> jsstring.

(** The two tests of the source decide the two relations of the
    specification. *)
Lemma str_eqb_reflects_normalized_equal a b :
  str_eqb (normalizeText toLowerCase a) (normalizeText toLowerCase b) = true
  <-> normalized_equal toLowerCase a b.
Proof. apply JSFacts.str_eqb_eq. Qed.

Lemma fuzzyMatch_reflects_spec_matches a b :
  fuzzyMatch toLowerCase a b = true <-> spec_matches toLowerCase a b.
Proof.
  unfold fuzzyMatch, spec_matches. cbv zeta.
  rewrite !orb_true_iff, JSFacts.str_eqb_eq, !JSFacts.includes_spec. tauto.
Qed.

(** C6.  [fuzzyMatch a b] holds exactly when the normalized texts are equal,
    or the normalized [a] contains the normalized [b] as a substring, or the
    normalized [b] contains the normalized [a]; so containment in either
    direction is enough on its own. *)
Theorem fuzzyMatch_iff_spec_matches (a b : jsstring) :
  (fuzzyMatch toLowerCase a b = true <-> spec_matches toLowerCase a b)
  /\ (Spec.contains (normalizeText toLowerCase a) (normalizeText toLowerCase b)
      -> fuzzyMatch toLowerCase a b = true)
  /\ (Spec.contains (normalizeText toLowerCase b) (normalizeText toLowerCase a)
      -> fuzzyMatch toLowerCase a b = true).
Proof.
  pose proof (fuzzyMatch_reflects_spec_matches a b) as E.
  split; [exact E|].
  split; intros H; apply E; unfold spec_matches; tauto.
Qed.

(** C10.  [fuzzyMatch] does not depend on the order of its arguments. *)
Theorem fuzzyMatch_symmetric (a b : jsstring) :
  fuzzyMatch toLowerCase a b = fuzzyMatch toLowerCase b a.
Proof.
  unfold fuzzyMatch. cbv zeta.
  rewrite (JSFacts.str_eqb_sym (normalizeText toLowerCase a)
             (normalizeText toLowerCase b)).
  rewrite <- !orb_assoc.
  f_equal. apply orb_comm.
Qed.

(** What the proof of idempotence needs from the host's case mapping: what
    [toLowerCase] returns is a fixed point of [toLowerCase], and a fixed
    point stays one when whitespace is trimmed from its ends and each of its
    whitespace runs becomes one space. *)
Hypothesis toLowerCase_idempotent :
  forall s, toLowerCase (toLowerCase s) = toLowerCase s.
Hypothesis toLowerCase_whitespace_stable :
  forall t, toLowerCase t = t ->
            toLowerCase (replace_ws_runs (trim t)) = replace_ws_runs (trim t).

(** C7.  [normalizeText] is idempotent:
    [normalizeText (normalizeText s) = normalizeText s] for every string. *)
Theorem normalizeText_idempotent (s : jsstring) :
  normalizeText toLowerCase (normalizeText toLowerCase s) = normalizeText toLowerCase s.
Proof.
  unfold normalizeText.
  rewrite (toLowerCase_whitespace_stable (toLowerCase s) (toLowerCase_idempotent s)).
  apply Whitespace.replace_trim_fixed.
Qed.

End TextClaims.

(** C6 at a pair for each direction of containment: the candidate contains
    the target, and the target contains the candidate. *)
Lemma fuzzyMatch_iff_spec_matches_witness :
  fuzzyMatch ascii_toLowerCase (js "The Daily Show") (js " the  daily") = true
  /\ fuzzyMatch ascii_toLowerCase (js "Daily") (js "The Daily Show") = true.
Proof.
  split.
  - apply (proj1 (proj2 (fuzzyMatch_iff_spec_matches ascii_toLowerCase
                           (js "The Daily Show") (js " the  daily")))).
    exists [], (js " show"). reflexivity.
  - apply (proj2 (proj2 (fuzzyMatch_iff_spec_matches ascii_toLowerCase
                           (js "Daily") (js "The Daily Show")))).
    exists (js "the "), (js " show"). reflexivity.
Defined.

(** C7 at the ASCII case mapping and a string with capitals, leading,
    trailing and repeated whitespace. *)
Lemma normalizeText_idempotent_witness :
  let s := js "  The   Daily Show " in
  normalizeText ascii_toLowerCase (normalizeText ascii_toLowerCase s)
  = normalizeText ascii_toLowerCase s.
Proof.
  exact (normalizeText_idempotent ascii_toLowerCase
           AsciiLower.idempotent AsciiLower.whitespace_stable
           (js "  The   Daily Show ")).
Defined.

(** ** The claim about the identifier encoder *)

Lemma btoa_octets data :
  Forall (fun b => b < 256) data ->
  btoa (String_fromCharCode data) = inr (base64_encode data).
Proof.
  intros H. unfold btoa, String_fromCharCode.
  assert (E : map (fun b => b mod 65536) data = data).
  { induction H as [|b l Hb Hl IH]; cbn [map]; [reflexivity|].
    rewrite IH, N.mod_small by lia. reflexivity. }
  rewrite E.
  assert (F : forallb (fun u => u <=? 255) data = true).
  { apply forallb_forall. intros u Hu. rewrite Forall_forall in H.
    apply N.leb_le. specialize (H u Hu). lia. }
  rewrite F. reflexivity.
Qed.

(** [toUrlSafeBase64] never throws: [btoa] only sees octets. *)
Lemma toUrlSafeBase64_unfold s :
  toUrlSafeBase64 s
  = inr (replace_trailing_pad
           (map Spec.url_substitute (base64_encode (TextEncoder_encode s)))).
Proof.
  unfold toUrlSafeBase64. cbv zeta.
  rewrite (btoa_octets _ (Encoding.TextEncoder_encode_octets s)).
  cbn. rewrite Base64.replace_all_char_spec. reflexivity.
Qed.

Lemma toUrlSafeBase64_alphabet s out :
  toUrlSafeBase64 s = inr out -> forallb Spec.url_safe_char out = true.
Proof.
  rewrite toUrlSafeBase64_unfold. intros H; injection H as <-.
  destruct (Base64.base64_encode_shape (TextEncoder_encode s))
    as [body [pads [E [Hb Hp]]]].
  rewrite E, Base64.replace_trailing_pad_shape.
  - apply forallb_forall. rewrite Forall_forall in Hb. exact Hb.
  - eapply Forall_impl; [|exact Hb]. exact Base64.url_safe_not_pad.
  - exact Hp.
Qed.

(** C5.  For a string [s], [toUrlSafeBase64 s] returns the standard base64
    encoding of the UTF-8 bytes of [s], with [+] replaced by [-], [/] by
    [_], and the trailing [=] padding removed; the result only has
    characters of [[A-Za-z0-9_-]]; and the empty string is encoded as the
    empty string.  (Determinism: the encoder is a function.) *)
Theorem toUrlSafeBase64_spec (s : jsstring) :
  Spec.wf_string s ->
  toUrlSafeBase64 s = inr (Spec.encode s)
  /\ forallb Spec.url_safe_char (Spec.encode s) = true
  /\ toUrlSafeBase64 [] = inr [].
Proof.
  intros Hs.
  assert (E : toUrlSafeBase64 s = inr (Spec.encode s)).
  { rewrite toUrlSafeBase64_unfold. unfold Spec.encode.
    rewrite Base64.replace_trailing_pad_spec.
    rewrite (Base64.base64_encode_spec _ (Encoding.TextEncoder_encode_octets s)).
    rewrite (Encoding.TextEncoder_encode_spec s Hs). reflexivity. }
  split; [exact E|]. split; [|reflexivity].
  exact (toUrlSafeBase64_alphabet s _ E).
Qed.

(** C5 at the identifier of the specification's end-to-end scenario. *)
Lemma toUrlSafeBase64_spec_witness :
  toUrlSafeBase64 (js "guid-1") = inr (Spec.encode (js "guid-1"))
  /\ forallb Spec.url_safe_char (Spec.encode (js "guid-1")) = true
  /\ toUrlSafeBase64 [] = inr [].
Proof.
  apply (toUrlSafeBase64_spec (js "guid-1")).
  unfold Spec.wf_string. repeat constructor.
Defined.

Example toUrlSafeBase64_guid_1 : toUrlSafeBase64 (js "guid-1") = inr (js "Z3VpZC0x").
Proof. reflexivity. Qed.

(** A string with a two-byte, a three-byte and a four-byte scalar value
    and a lone surrogate; the standard encoding has a [+]. *)
Example toUrlSafeBase64_non_ascii :
  toUrlSafeBase64 [233; 8364; 55357; 56832; 55357] = inr (js "w6nigqzwn5iA77-9").
Proof. reflexivity. Qed.

(* ===================================================================== *)
(** ** The pipeline                                                       *)
(* ===================================================================== *)

(** Simplification runs the monad and the case analyses of the handler and
    leaves the calls to the helpers folded. *)
#[local] Arguments toUrlSafeBase64 : simpl never.
#[local] Arguments js : simpl never.
#[local] Arguments Number_toString : simpl never.
#[local] Arguments jsnumber_toString : simpl never.
#[local] Arguments findEpisode : simpl never.
#[local] Arguments selectShow : simpl never.
#[local] Arguments fetchAndParseRSSFeed : simpl never.
#[local] Arguments searchApplePodcasts : simpl never.
#[local] Arguments slice0 : simpl never.

Section Pipeline.

Variable toLowerCase : jsstring -> jsstring.
Variable w : World.

(** A validated request runs lines 262-344. *)
Lemma fetch_post showName episodeTitle :
  showName <> [] -> episodeTitle <> [] ->
  fetch toLowerCase w (post showName episodeTitle)
  = Some (resolve toLowerCase w showName episodeTitle).
Proof.
  intros Hs He. unfold fetch, post. cbn.
  destruct showName; [contradiction|]. destruct episodeTitle; [contradiction|].
  reflexivity.
Qed.

(** What the directory lookup did when it returned. *)
Lemma searchApplePodcasts_inr showName r :
  searchApplePodcasts toLowerCase w showName = inr r ->
  exists st data,
    directory w showName = HttpResponse st (inr data)
    /\ ok st = true /\ r = selectShow toLowerCase data showName.
Proof.
  unfold searchApplePodcasts.
  destruct (directory w showName) as [m|st [m|data]]; cbn; try discriminate.
  - destruct (ok st); cbn; discriminate.
  - destruct (ok st) eqn:Hok; cbn; [|discriminate].
    intros H; injection H as <-. exists st, data. repeat split. exact Hok.
Qed.

Lemma selectShow_In data showName p :
  selectShow toLowerCase data showName = Some p -> In p (results data).
Proof.
  unfold selectShow.
  destruct ((resultCount data =? 0)%Z || (List.length (results data) =? 0)%nat);
    [discriminate|]. cbv zeta.
  destruct (find _ (results data)) as [x|] eqn:E1.
  - intros H; injection H as <-. exact (proj1 (find_some _ _ E1)).
  - destruct (find (fun r => fuzzyMatch _ _ _) (results data)) as [x|] eqn:E2.
    + intros H; injection H as <-. exact (proj1 (find_some _ _ E2)).
    + apply nth_error_In.
Qed.

Lemma findEpisode_In episodes episodeTitle ep :
  findEpisode toLowerCase episodes episodeTitle = Some ep -> In ep episodes.
Proof.
  unfold findEpisode. cbv zeta.
  destruct (find _ episodes) as [x|] eqn:E1.
  - intros H; injection H as <-. exact (proj1 (find_some _ _ E1)).
  - intros E2. exact (proj1 (find_some _ _ E2)).
Qed.

(** The run of the [try] block that reaches step 5, and no other, answers
    with a success payload. *)
Lemma resolve_success showName episodeTitle st url n id t g :
  resolve toLowerCase w showName episodeTitle
  = {| status := st; body := Some (SuccessPayload url n id t g) |} ->
  exists p feedurl episodes ep enc,
    searchApplePodcasts toLowerCase w showName = inr (Some p)
    /\ feedUrl p = Some feedurl /\ feedurl <> []
    /\ fetchAndParseRSSFeed w feedurl = inr episodes
    /\ findEpisode toLowerCase episodes episodeTitle = Some ep
    /\ toUrlSafeBase64 (extractGuid (guid ep)) = inr enc
    /\ st = 200%Z
    /\ url = js "https://pod.link/" ++ jsnumber_toString (collectionId p)
             ++ js "/episode/" ++ enc
    /\ n = collectionName p /\ id = collectionId p
    /\ t = title ep /\ g = extractGuid (guid ep).
Proof.
  unfold resolve, tryBlock.
  destruct (searchApplePodcasts toLowerCase w showName) as [m|[p|]] eqn:Es; cbn;
    try discriminate.
  destruct (feedUrl p) as [[|c feedurl]|] eqn:Ef; cbn; try discriminate.
  destruct (fetchAndParseRSSFeed w (c :: feedurl)) as [m|episodes] eqn:Ee; cbn;
    try discriminate.
  destruct (List.length episodes =? 0)%nat; cbn; try discriminate.
  destruct (findEpisode toLowerCase episodes episodeTitle) as [ep|] eqn:Ep; cbn;
    try discriminate.
  rewrite toUrlSafeBase64_unfold. cbn.
  intros H; injection H as <- <- <- <- <- <-.
  exists p, (c :: feedurl), episodes, ep. eexists.
  rewrite toUrlSafeBase64_unfold.
  repeat (split; [first [reflexivity | assumption | discriminate]|]). reflexivity.
Qed.

End Pipeline.

(** ** The claims about selection *)

Section Selection.

Variable toLowerCase : jsstring -> jsstring.
Variable w : World.

(** The choice made by lines 112-131 on a decoded response that passes the
    guard of line 112. *)
Lemma selectShow_guard data showName :
  resultCount data <> 0%Z -> results data <> [] ->
  selectShow toLowerCase data showName
  = match find (fun r => str_eqb (normalizeText toLowerCase (collectionName r))
                                 (normalizeText toLowerCase showName))
               (results data) with
    | Some r => Some r
    | None =>
        match find (fun r => fuzzyMatch toLowerCase (collectionName r) showName)
                   (results data) with
        | Some r => Some r
        | None => nth_error (results data) 0
        end
    end.
Proof.
  intros Hc Hr. unfold selectShow.
  destruct (Z.eqb_spec (resultCount data) 0); [contradiction|].
  destruct (results data); [contradiction|]. reflexivity.
Qed.

Lemma selectShow_none data showName :
  resultCount data = 0%Z \/ results data = [] ->
  selectShow toLowerCase data showName = None.
Proof.
  intros [H|H]; unfold selectShow; rewrite H.
  - reflexivity.
  - rewrite orb_true_r. reflexivity.
Qed.

Lemma searchApplePodcasts_ok showName st data :
  directory w showName = HttpResponse st (inr data) -> ok st = true ->
  searchApplePodcasts toLowerCase w showName
  = inr (selectShow toLowerCase data showName).
Proof. intros Hd Hok. unfold searchApplePodcasts. rewrite Hd, Hok. reflexivity. Qed.

(** C2 (amended).  On a directory response whose reported count is not zero
    and whose result list is not empty, the search returns the first
    candidate whose name is normalized-equal to [showName]; when there is
    none, the first candidate whose name fuzzy-matches [showName]; when
    there is none either, the first candidate of the list.  When the
    reported count is zero or the list is empty it returns null. *)
Theorem searchApplePodcasts_selection (showName : jsstring) (st : Z)
    (data : AppleSearchResponse) :
  directory w showName = HttpResponse st (inr data) -> ok st = true ->
  let exact r := normalized_equal toLowerCase (collectionName r) showName in
  let fuzzy r := spec_matches toLowerCase (collectionName r) showName in
  let found := searchApplePodcasts toLowerCase w showName in
  (resultCount data <> 0%Z -> results data <> [] ->
     (forall x, Spec.first_such exact (results data) x -> found = inr (Some x))
     /\ (Spec.none_such exact (results data) ->
         forall x, Spec.first_such fuzzy (results data) x -> found = inr (Some x))
     /\ (Spec.none_such exact (results data) ->
         Spec.none_such fuzzy (results data) ->
         exists x rest, results data = x :: rest /\ found = inr (Some x)))
  /\ (resultCount data = 0%Z \/ results data = [] -> found = inr None).
Proof.
  intros Hd Hok exact fuzzy found. subst found.
  rewrite (searchApplePodcasts_ok _ _ _ Hd Hok).
  split; [|intros H; rewrite (selectShow_none _ _ H); reflexivity].
  intros Hc Hr. rewrite (selectShow_guard _ _ Hc Hr).
  pose proof (fun r => str_eqb_reflects_normalized_equal toLowerCase
                         (collectionName r) showName) as Rex.
  pose proof (fun r => fuzzyMatch_reflects_spec_matches toLowerCase
                         (collectionName r) showName) as Rfz.
  split; [|split].
  - intros x Hx. rewrite (Find.find_first _ exact Rex _ _ Hx). reflexivity.
  - intros Hno x Hx.
    rewrite (Find.find_none _ exact Rex _ Hno), (Find.find_first _ fuzzy Rfz _ _ Hx).
    reflexivity.
  - intros Hno Hnf.
    rewrite (Find.find_none _ exact Rex _ Hno), (Find.find_none _ fuzzy Rfz _ Hnf).
    destruct (results data) as [|x rest]; [contradiction|].
    exists x, rest. split; reflexivity.
Qed.

(** C3.  [findEpisode] returns the first episode whose title is
    normalized-equal to the target; when there is none, the first episode
    whose title fuzzy-matches the target; when there is none either, null:
    it does not fall back to some episode. *)
Theorem findEpisode_selection (episodes : list RSSItem) (episodeTitle : jsstring) :
  let exact ep := normalized_equal toLowerCase (title ep) episodeTitle in
  let fuzzy ep := spec_matches toLowerCase (title ep) episodeTitle in
  (forall x, Spec.first_such exact episodes x ->
             findEpisode toLowerCase episodes episodeTitle = Some x)
  /\ (Spec.none_such exact episodes ->
      forall x, Spec.first_such fuzzy episodes x ->
                findEpisode toLowerCase episodes episodeTitle = Some x)
  /\ (Spec.none_such exact episodes -> Spec.none_such fuzzy episodes ->
      findEpisode toLowerCase episodes episodeTitle = None).
Proof.
  intros exact fuzzy. unfold findEpisode. cbv zeta.
  pose proof (fun ep => str_eqb_reflects_normalized_equal toLowerCase
                          (title ep) episodeTitle) as Rex.
  pose proof (fun ep => fuzzyMatch_reflects_spec_matches toLowerCase
                          (title ep) episodeTitle) as Rfz.
  split; [|split].
  - intros x Hx. rewrite (Find.find_first _ exact Rex _ _ Hx). reflexivity.
  - intros Hno x Hx. rewrite (Find.find_none _ exact Rex _ Hno).
    exact (Find.find_first _ fuzzy Rfz _ _ Hx).
  - intros Hno Hnf. rewrite (Find.find_none _ exact Rex _ Hno).
    exact (Find.find_none _ fuzzy Rfz _ Hnf).
Qed.

End Selection.

(** C3 at the scenario of the specification: episodes "Ep1", "Ep2" and the
    target "Ep3" have neither an exact nor a fuzzy match, the result is
    null. *)
Lemma findEpisode_selection_witness :
  findEpisode ascii_toLowerCase [Scenario.ep1; Scenario.ep2] (js "Ep3") = None.
Proof.
  apply (proj2 (proj2 (findEpisode_selection ascii_toLowerCase
                         [Scenario.ep1; Scenario.ep2] (js "Ep3")))).
  - intros y [<- | [<- | []]]; vm_compute; discriminate.
  - intros y [<- | [<- | []]] H;
      apply fuzzyMatch_reflects_spec_matches in H; vm_compute in H; discriminate H.
Defined.

(** C2, the claim as stated, fails: the response below has a non-empty
    result list whose only candidate is normalized-equal to the query, and
    the search returns null, because the reported count is zero. *)
Lemma searchApplePodcasts_count_zero_counterexample :
  directory Scenario.w_count_zero (js "The Daily")
  = HttpResponse 200 (inr {| resultCount := 0; results := [Scenario.the_daily] |})
  /\ Spec.first_such
       (fun r => normalized_equal ascii_toLowerCase (collectionName r) (js "The Daily"))
       [Scenario.the_daily] Scenario.the_daily
  /\ searchApplePodcasts ascii_toLowerCase Scenario.w_count_zero (js "The Daily")
     = inr None.
Proof.
  split; [reflexivity|]. split; [|reflexivity].
  exists [], []. split; [reflexivity|]. split; [reflexivity | intros ? []].
Qed.

(** C2 (amended) on the precedence scenario of the specification: with
    candidates "The Daily Show", "The Daily" and the query "The Daily", the
    exact match is chosen over the fuzzy match that precedes it. *)
Lemma searchApplePodcasts_selection_witness :
  searchApplePodcasts ascii_toLowerCase Scenario.w_two_shows (js "The Daily")
  = inr (Some Scenario.the_daily).
Proof.
  refine (proj1 (proj1 (searchApplePodcasts_selection ascii_toLowerCase
                          Scenario.w_two_shows (js "The Daily") 200
                          {| resultCount := 2;
                             results := [Scenario.the_daily_show; Scenario.the_daily] |}
                          eq_refl eq_refl) _ _) Scenario.the_daily _).
  - discriminate.
  - discriminate.
  - exists [Scenario.the_daily_show], []. split; [reflexivity|]. split; [reflexivity|].
    intros y [<- | []]. vm_compute. discriminate.
Defined.

(** The fallback scenario: no exact and no fuzzy match, the first candidate
    is returned. *)
Example searchApplePodcasts_fallback :
  searchApplePodcasts ascii_toLowerCase Scenario.w_two_shows (js "Baz")
  = inr (Some Scenario.the_daily_show).
Proof. reflexivity. Qed.

(** The scenario of the specification: episodes "Ep1", "Ep2", target "Ep3". *)
Example findEpisode_no_fallback :
  findEpisode ascii_toLowerCase [Scenario.ep1; Scenario.ep2] (js "Ep3") = None.
Proof. reflexivity. Qed.

Example findEpisode_exact_over_fuzzy :
  findEpisode ascii_toLowerCase
    [ {| title := js "Ep1 part two"; guid := GuidString (js "g0") |}; Scenario.ep1 ]
    (js " EP1 ")
  = Some Scenario.ep1.
Proof. reflexivity. Qed.

(** ** The claim about the feed entries *)

Section Feed.

Variable w : World.

(** C8.  For a retrieved document with a channel container, the episode
    list is flat: a single entry gives the one-element list of that entry,
    a list of entries gives that list unchanged, and a channel without
    entries gives the empty list, as a result and not as an error. *)
Theorem fetchAndParseRSSFeed_flat (feedUrl : jsstring) (st : Z)
    (parsed : RSSFeed) (ch : RSSChannel) :
  feed w feedUrl = HttpResponse st (inr parsed) -> ok st = true ->
  rss_channel parsed = Some ch ->
  (forall i, item ch = OneItem i -> fetchAndParseRSSFeed w feedUrl = inr [i])
  /\ (forall l, item ch = ManyItems l -> fetchAndParseRSSFeed w feedUrl = inr l)
  /\ (item ch = NoItem -> fetchAndParseRSSFeed w feedUrl = inr []).
Proof.
  intros Hf Hok Hch. unfold fetchAndParseRSSFeed, channelItems.
  rewrite Hf, Hok. cbn. rewrite Hch.
  repeat split; intros; match goal with H : item ch = _ |- _ => rewrite H end;
    reflexivity.
Qed.

End Feed.

(** C8 on a feed with a single entry. *)
Lemma fetchAndParseRSSFeed_flat_witness :
  fetchAndParseRSSFeed Scenario.w_scenario (js "https://example.test/feed")
  = inr [Scenario.latest_episode].
Proof.
  refine (proj1 (fetchAndParseRSSFeed_flat Scenario.w_scenario
                   (js "https://example.test/feed") 200
                   (Scenario.feed_of (OneItem Scenario.latest_episode))
                   {| channel_title := js "The Daily";
                      item := OneItem Scenario.latest_episode |}
                   eq_refl eq_refl eq_refl) Scenario.latest_episode eq_refl).
Defined.

(** ** The claims about the outcome of a request *)

(** Two responses with different literal error codes are different. *)
Ltac literal_clash :=
  let H := fresh "H" in
  intros H; exfalso;
  first [ discriminate H
        | injection H; intros;
          match goal with
          | Hjs : js _ = js _ |- _ => vm_compute in Hjs; discriminate Hjs
          end ].

Section Outcome.

Variable toLowerCase : jsstring -> jsstring.
Variable w : World.

(** Only the run of the [try] block that finds no episode answers with the
    code "Episode not found". *)
Lemma resolve_episode_not_found showName episodeTitle st m hints :
  resolve toLowerCase w showName episodeTitle
  = {| status := st;
       body := Some (ErrorPayload (js "Episode not found") m hints) |} ->
  exists p feedurl episodes,
    searchApplePodcasts toLowerCase w showName = inr (Some p)
    /\ feedUrl p = Some feedurl
    /\ fetchAndParseRSSFeed w feedurl = inr episodes
    /\ findEpisode toLowerCase episodes episodeTitle = None
    /\ hints = Some (map title (slice0 5 episodes))
    /\ st = 404%Z.
Proof.
  unfold resolve, tryBlock, catchBlock, jsonResponse.
  destruct (searchApplePodcasts toLowerCase w showName) as [msg|[p|]] eqn:Es; cbn;
    try literal_clash.
  destruct (feedUrl p) as [[|c feedurl]|] eqn:Ef; cbn; try literal_clash.
  destruct (fetchAndParseRSSFeed w (c :: feedurl)) as [msg|episodes] eqn:Ee; cbn;
    try literal_clash.
  destruct (List.length episodes =? 0)%nat; cbn; try literal_clash.
  destruct (findEpisode toLowerCase episodes episodeTitle) as [ep|] eqn:Ep; cbn.
  - rewrite toUrlSafeBase64_unfold. cbn. discriminate.
  - intros H; injection H as <- _ <-.
    exists p, (c :: feedurl), episodes. repeat split; assumption.
Qed.

(** A request is answered by the validation or by lines 262-344. *)
Lemma fetch_cases request :
  (exists showName episodeTitle,
      json request
      = inr (JsonValue {| showName_field := FieldString showName;
                          episodeTitle_field := FieldString episodeTitle |})
      /\ fetch toLowerCase w request
         = Some (resolve toLowerCase w showName episodeTitle))
  \/ fetch toLowerCase w request = None
  \/ (exists r, fetch toLowerCase w request = Some r /\ body r = None)
  \/ (exists r e, fetch toLowerCase w request = Some r
                  /\ body r = Some (ErrorPayload e None None)
                  /\ e <> js "Episode not found").
Proof.
  unfold fetch.
  destruct (method request).
  - right; right; left. eexists. split; reflexivity.
  - destruct (json request) as [msg|[|[fs fe]]].
    + do 3 right. do 2 eexists.
      split; [reflexivity | split; [reflexivity | vm_compute; discriminate]].
    + right; left. reflexivity.
    + cbn. destruct fs as [| |[|c s]];
        try (do 3 right; do 2 eexists;
             split; [reflexivity | split; [reflexivity | vm_compute; discriminate]]).
      destruct fe as [| |[|d e]];
        try (do 3 right; do 2 eexists;
             split; [reflexivity | split; [reflexivity | vm_compute; discriminate]]).
      left. exists (c :: s), (d :: e). split; reflexivity.
  - do 3 right. do 2 eexists.
    split; [reflexivity | split; [reflexivity | vm_compute; discriminate]].
Qed.

(** C9.  The outputs carry the original strings.  When a request is
    answered with a success payload, its show name and id are those of a
    candidate of the directory response, its episode title is the title of
    an entry of the feed and its identifier the identifier of that entry, as
    they were received; when it is answered with "Episode not found", the
    hints are the titles of the first [min 5 length] entries of the feed, as
    received and in feed order. *)
Theorem fetch_outputs_original (request : Request) :
  (forall st url n id t g,
      fetch toLowerCase w request
      = Some {| status := st; body := Some (SuccessPayload url n id t g) |} ->
      exists showName episodeTitle dst data p feedurl episodes ep,
        json request
        = inr (JsonValue {| showName_field := FieldString showName;
                            episodeTitle_field := FieldString episodeTitle |})
        /\ directory w showName = HttpResponse dst (inr data)
        /\ In p (results data) /\ feedUrl p = Some feedurl
        /\ fetchAndParseRSSFeed w feedurl = inr episodes
        /\ findEpisode toLowerCase episodes episodeTitle = Some ep
        /\ In ep episodes
        /\ n = collectionName p /\ id = collectionId p
        /\ t = title ep /\ g = extractGuid (guid ep))
  /\ (forall st m hints,
      fetch toLowerCase w request
      = Some {| status := st;
                body := Some (ErrorPayload (js "Episode not found") m hints) |} ->
      exists showName episodeTitle p feedurl episodes,
        json request
        = inr (JsonValue {| showName_field := FieldString showName;
                            episodeTitle_field := FieldString episodeTitle |})
        /\ searchApplePodcasts toLowerCase w showName = inr (Some p)
        /\ feedUrl p = Some feedurl
        /\ fetchAndParseRSSFeed w feedurl = inr episodes
        /\ findEpisode toLowerCase episodes episodeTitle = None
        /\ hints = Some (map title (firstn 5 episodes))
        /\ List.length (firstn 5 episodes) = Nat.min 5 (List.length episodes)).
Proof.
  destruct (fetch_cases request)
    as [(showName & episodeTitle & Hj & Hr)
       | [Hnone | [(r & Hr & Hb) | (r & e & Hr & He & Hne)]]].
  - rewrite Hr. split.
    + intros st url n id t g H. injection H as H.
      destruct (resolve_success _ _ _ _ _ _ _ _ _ _ H)
        as (p & feedurl & episodes & ep & enc & Hs & Hf & _ & Hfe & Hep & _ & _ & _
            & -> & -> & -> & ->).
      destruct (searchApplePodcasts_inr _ _ _ _ Hs) as (dst & data & Hd & _ & Hsel).
      exists showName, episodeTitle, dst, data, p, feedurl, episodes, ep.
      repeat split; try assumption.
      * apply (selectShow_In toLowerCase data showName). symmetry; exact Hsel.
      * exact (findEpisode_In _ _ _ _ Hep).
    + intros st m hints H. injection H as H.
      destruct (resolve_episode_not_found _ _ _ _ _ H)
        as (p & feedurl & episodes & Hs & Hf & Hfe & Hep & -> & _).
      exists showName, episodeTitle, p, feedurl, episodes.
      repeat split; try assumption. apply length_firstn.
  - split; intros; match goal with H : fetch _ _ _ = _ |- _ => rewrite H in Hnone end;
      discriminate.
  - split; intros; match goal with H : fetch _ _ _ = _ |- _ => rewrite H in Hr end;
      injection Hr as <-; discriminate.
  - split; intros; match goal with H : fetch _ _ _ = _ |- _ => rewrite H in Hr end;
      injection Hr as <-; cbn in He; [discriminate|].
    injection He as <- _ _. contradiction.
Qed.

End Outcome.

(** C9 at the end-to-end scenario of the specification. *)
Lemma fetch_outputs_original_witness :
  exists showName episodeTitle dst data p feedurl episodes ep,
    json (post (js "The Daily") (js "Latest Episode"))
    = inr (JsonValue {| showName_field := FieldString showName;
                        episodeTitle_field := FieldString episodeTitle |})
    /\ directory Scenario.w_scenario showName = HttpResponse dst (inr data)
    /\ In p (results data) /\ feedUrl p = Some feedurl
    /\ fetchAndParseRSSFeed Scenario.w_scenario feedurl = inr episodes
    /\ findEpisode ascii_toLowerCase episodes episodeTitle = Some ep
    /\ In ep episodes
    /\ js "The Daily" = collectionName p
    /\ SafeInteger 1234567890 = collectionId p
    /\ js "Latest Episode" = title ep /\ js "guid-1" = extractGuid (guid ep).
Proof.
  exact (proj1 (fetch_outputs_original ascii_toLowerCase Scenario.w_scenario
                  (post (js "The Daily") (js "Latest Episode")))
               200%Z (js "https://pod.link/1234567890/episode/Z3VpZC0x")
               (js "The Daily") (SafeInteger 1234567890) (js "Latest Episode")
               (js "guid-1") eq_refl).
Defined.

Section Failures.

Variable toLowerCase : jsstring -> jsstring.
Variable w : World.

(** C1 (amended).  When the directory lookup selects a show with a feed URL
    and the feed retrieval answers with a non-success status, or the
    retrieved document has no channel container, the exception thrown by
    [fetchAndParseRSSFeed] reaches the catch-all handler: the response has
    status 500 and the code "Internal server error", with the message of
    the exception. *)
Theorem feed_failure_is_internal_error (showName episodeTitle : jsstring)
    (p : ApplePodcastResult) (feedurl : jsstring) (st : Z)
    (reply : sum jsstring RSSFeed) :
  showName <> [] -> episodeTitle <> [] ->
  searchApplePodcasts toLowerCase w showName = inr (Some p) ->
  feedUrl p = Some feedurl -> feedurl <> [] ->
  feed w feedurl = HttpResponse st reply ->
  (ok st = false ->
   fetch toLowerCase w (post showName episodeTitle)
   = Some (jsonResponse
       (ErrorPayload (js "Internal server error")
          (Some (js "Failed to fetch RSS feed: " ++ Number_toString st)) None)
       500))
  /\ (ok st = true ->
      forall parsed, reply = inr parsed -> rss_channel parsed = None ->
      fetch toLowerCase w (post showName episodeTitle)
      = Some (jsonResponse
          (ErrorPayload (js "Internal server error")
             (Some (js "Invalid RSS feed structure")) None)
          500)).
Proof.
  intros Hs He Hsearch Hurl Hne Hfeed.
  rewrite (fetch_post toLowerCase w _ _ Hs He).
  unfold resolve, tryBlock. rewrite Hsearch. cbn. rewrite Hurl.
  destruct feedurl as [|c feedurl]; [contradiction|]. cbn.
  unfold fetchAndParseRSSFeed. rewrite Hfeed.
  split.
  - intros Hok. rewrite Hok. reflexivity.
  - intros Hok parsed -> Hch. rewrite Hok. cbn. unfold channelItems.
    rewrite Hch. reflexivity.
Qed.

(** C4 (amended).  A resolved episode whose extracted identifier is the
    empty string is not treated as an error: the response is the success
    payload, with status 200, carrying the empty identifier, and the encoded
    part of its link is empty.  So a success outcome does not imply that the
    identifier used for the link is non-empty. *)
Theorem identifier_not_validated (showName episodeTitle : jsstring)
    (p : ApplePodcastResult) (feedurl : jsstring) (episodes : list RSSItem)
    (ep : RSSItem) :
  showName <> [] -> episodeTitle <> [] ->
  searchApplePodcasts toLowerCase w showName = inr (Some p) ->
  feedUrl p = Some feedurl -> feedurl <> [] ->
  fetchAndParseRSSFeed w feedurl = inr episodes ->
  findEpisode toLowerCase episodes episodeTitle = Some ep ->
  wf_number (collectionId p) ->
  extractGuid (guid ep) = [] ->
  fetch toLowerCase w (post showName episodeTitle)
  = Some (jsonResponse
            (SuccessPayload
               (js "https://pod.link/" ++ jsnumber_toString (collectionId p)
                ++ js "/episode/")
               (collectionName p) (collectionId p) (title ep) [])
            200).
Proof.
  intros Hs He Hsearch Hurl Hne Hfeed Hep _ Hguid.
  rewrite (fetch_post toLowerCase w _ _ Hs He).
  unfold resolve, tryBlock. rewrite Hsearch. cbn. rewrite Hurl.
  destruct feedurl as [|c feedurl]; [contradiction|]. cbn.
  rewrite Hfeed. cbn.
  destruct episodes as [|e0 rest];
    [apply findEpisode_In in Hep; destruct Hep|].
  cbn. rewrite Hep. cbn. rewrite Hguid.
  change (toUrlSafeBase64 []) with (@inr jsstring jsstring []). cbn.
  rewrite app_nil_r. reflexivity.
Qed.

End Failures.

(** C1, the claim as stated, fails: with the feed server answering 503, and
    with a document without a channel container, the status is 500 and not
    404. *)
Lemma feed_failure_status_counterexample :
  let request := post (js "The Daily") (js "Latest Episode") in
  option_map status (fetch ascii_toLowerCase Scenario.w_feed_down request)
  = Some 500%Z
  /\ option_map status (fetch ascii_toLowerCase Scenario.w_feed_down request)
     <> Some 404%Z
  /\ option_map status (fetch ascii_toLowerCase Scenario.w_no_channel request)
     = Some 500%Z
  /\ option_map status (fetch ascii_toLowerCase Scenario.w_no_channel request)
     <> Some 404%Z.
Proof. repeat split; try reflexivity; vm_compute; discriminate. Qed.

(** C1 (amended) at the 503 answer. *)
Lemma feed_failure_is_internal_error_witness :
  fetch ascii_toLowerCase Scenario.w_feed_down
        (post (js "The Daily") (js "Latest Episode"))
  = Some (jsonResponse
      (ErrorPayload (js "Internal server error")
         (Some (js "Failed to fetch RSS feed: 503")) None)
      500).
Proof.
  refine (proj1 (feed_failure_is_internal_error ascii_toLowerCase
                   Scenario.w_feed_down (js "The Daily") (js "Latest Episode")
                   Scenario.the_daily (js "https://example.test/feed") 503
                   (inr {| rss := None |}) _ _ eq_refl eq_refl _ eq_refl) eq_refl);
    vm_compute; discriminate.
Defined.

(** C4, the claim as stated, fails: the matched entry has the empty
    identifier and the response is a success payload with that identifier. *)
Lemma empty_identifier_counterexample :
  extractGuid (guid Scenario.no_guid_episode) = []
  /\ fetch ascii_toLowerCase Scenario.w_empty_guid
           (post (js "The Daily") (js "Latest Episode"))
     = Some (jsonResponse
               (SuccessPayload (js "https://pod.link/1234567890/episode/")
                  (js "The Daily") (SafeInteger 1234567890)
                  (js "Latest Episode") [])
               200).
Proof. split; reflexivity. Qed.

(** C4 (amended) at the entry with the empty identifier. *)
Lemma identifier_not_validated_witness :
  fetch ascii_toLowerCase Scenario.w_empty_guid
        (post (js "The Daily") (js "Latest Episode"))
  = Some (jsonResponse
            (SuccessPayload
               (js "https://pod.link/"
                ++ jsnumber_toString (collectionId Scenario.the_daily)
                ++ js "/episode/")
               (collectionName Scenario.the_daily)
               (collectionId Scenario.the_daily)
               (title Scenario.no_guid_episode) [])
            200).
Proof.
  refine (identifier_not_validated ascii_toLowerCase Scenario.w_empty_guid
            (js "The Daily") (js "Latest Episode") Scenario.the_daily
            (js "https://example.test/feed") [Scenario.no_guid_episode]
            Scenario.no_guid_episode _ _ eq_refl eq_refl _ eq_refl eq_refl _ eq_refl);
    vm_compute; discriminate.
Defined.

(** The end-to-end scenarios of the specification. *)
Example scenario_success :
  fetch ascii_toLowerCase Scenario.w_scenario
        (post (js "The Daily") (js "Latest Episode"))
  = Some (jsonResponse
      (SuccessPayload (js "https://pod.link/1234567890/episode/Z3VpZC0x")
         (js "The Daily") (SafeInteger 1234567890) (js "Latest Episode")
         (js "guid-1"))
      200).
Proof. reflexivity. Qed.

Example scenario_episode_not_found :
  fetch ascii_toLowerCase Scenario.w_two_shows (post (js "The Daily") (js "Ep3"))
  = Some (jsonResponse
      (ErrorPayload (js "Episode not found")
         (Some (js "No episode found matching " ++ dquote ++ js "Ep3" ++ dquote
                ++ js " in " ++ dquote ++ js "The Daily" ++ dquote))
         (Some [js "Ep1"; js "Ep2"]))
      404).
Proof. reflexivity. Qed.

(* ===================================================================== *)
(** * Part III.  Further properties                                       *)
(* ===================================================================== *)

(** ** When the two clients throw *)

(** A disjunct about a reply that is not the one received, or that is. *)
Ltac back_case H :=
  try discriminate H;
  inversion H; subst; try congruence; try reflexivity.

Section Clients.

Variable toLowerCase : jsstring -> jsstring.
Variable w : World.


(** X2.  [fetchAndParseRSSFeed] throws exactly when the request to the feed
    server is rejected, when the status is not a success status (with
    "Failed to fetch RSS feed: " and the status), when the document does
    not parse, or when the parsed document has no channel container (with
    "Invalid RSS feed structure"). *)
Theorem fetchAndParseRSSFeed_throws (feedUrl message : jsstring) :
  fetchAndParseRSSFeed w feedUrl = inl message
  <-> feed w feedUrl = NetworkError message
      \/ (exists st reply,
             feed w feedUrl = HttpResponse st reply /\ ok st = false
             /\ message = js "Failed to fetch RSS feed: " ++ Number_toString st)
      \/ (exists st,
             feed w feedUrl = HttpResponse st (inl message) /\ ok st = true)
      \/ (exists st parsed,
             feed w feedUrl = HttpResponse st (inr parsed) /\ ok st = true
             /\ rss_channel parsed = None
             /\ message = js "Invalid RSS feed structure").
Proof.
  unfold fetchAndParseRSSFeed.
  destruct (feed w feedUrl) as [m|st reply].
  - split.
    + intros H; injection H as ->. left; reflexivity.
    + intros [H | [(st & r & H & _) | [(st & H & _) | (st & pr & H & _)]]];
        back_case H.
  - destruct (ok st) eqn:Hok; cbn [negb].
    + destruct reply as [m|parsed]; cbn.
      * split.
        -- intros H; injection H as ->. right; right; left. exists st.
           split; [reflexivity | exact Hok].
        -- intros [H | [(st' & r & H & Hf & _) | [(st' & H & _) | (st' & pr & H & _)]]];
             back_case H.
      * unfold channelItems. cbv zeta.
        destruct (rss_channel parsed) as [ch|] eqn:Hch.
        -- split; [destruct (item ch); discriminate|].
           intros [H | [(st' & r & H & Hf & _) | [(st' & H & _) | (st' & pr & H & _ & Hn & _)]]];
             back_case H.
        -- split.
           ++ intros H; injection H as <-. right; right; right. exists st, parsed.
              repeat split; assumption.
           ++ intros [H | [(st' & r & H & Hf & _) | [(st' & H & _) | (st' & pr & H & _ & _ & Hm)]]];
                back_case H.
    + cbn. split.
      * intros H; injection H as <-. right; left. exists st, reply.
        split; [reflexivity | split; [exact Hok | reflexivity]].
      * intros [H | [(st' & r & H & Hf & Hm) | [(st' & H & Ht) | (st' & pr & H & Ht & _)]]];
          back_case H.
Qed.

(** X3.  The search returns null only through the guard of line 112: on a
    decoded success answer, it returns null exactly when the reported count
    is zero or the result list is empty. *)
Theorem searchApplePodcasts_null_iff (showName : jsstring) (st : Z)
    (data : AppleSearchResponse) :
  directory w showName = HttpResponse st (inr data) -> ok st = true ->
  (searchApplePodcasts toLowerCase w showName = inr None
   <-> resultCount data = 0%Z \/ results data = []).
Proof.
  intros Hd Hok. rewrite (searchApplePodcasts_ok toLowerCase w _ _ _ Hd Hok).
  split.
  - intros H. injection H as H. unfold selectShow in H.
    destruct (Z.eqb_spec (resultCount data) 0) as [E|_]; [left; exact E|].
    destruct (results data) as [|x rest]; [right; reflexivity|].
    exfalso. cbn [orb List.length Nat.eqb] in H. cbv zeta in H.
    destruct (find _ (x :: rest)); [discriminate|].
    destruct (find _ (x :: rest)); discriminate.
  - intros H. rewrite (selectShow_none toLowerCase _ _ H). reflexivity.
Qed.

(** X4.  A candidate the search returns is a candidate of the response, and
    it fuzzy-matches the query unless it is the first of the list. *)
Theorem searchApplePodcasts_sound (showName : jsstring) (st : Z)
    (data : AppleSearchResponse) (p : ApplePodcastResult) :
  directory w showName = HttpResponse st (inr data) -> ok st = true ->
  searchApplePodcasts toLowerCase w showName = inr (Some p) ->
  In p (results data)
  /\ (fuzzyMatch toLowerCase (collectionName p) showName = true
      \/ exists rest, results data = p :: rest).
Proof.
  intros Hd Hok H. rewrite (searchApplePodcasts_ok toLowerCase w _ _ _ Hd Hok) in H.
  injection H as H. split; [exact (selectShow_In toLowerCase _ _ _ H)|].
  unfold selectShow in H.
  destruct ((resultCount data =? 0)%Z || (List.length (results data) =? 0)%nat);
    [discriminate|]. cbv zeta in H.
  destruct (find (fun r => str_eqb _ _) (results data)) as [x|] eqn:E1.
  - injection H as <-. left. apply find_some in E1 as [_ E1].
    unfold fuzzyMatch. cbv zeta. rewrite E1. reflexivity.
  - destruct (find (fun r => fuzzyMatch _ _ _) (results data)) as [x|] eqn:E2.
    + injection H as <-. left. exact (proj2 (find_some _ _ E2)).
    + right. destruct (results data) as [|x rest]; [discriminate|].
      injection H as <-. exists rest; reflexivity.
Qed.

End Clients.

(** X3 at the precedence scenario: the count is 2, the search does not
    return null. *)
Lemma searchApplePodcasts_null_iff_witness :
  searchApplePodcasts ascii_toLowerCase Scenario.w_two_shows (js "Baz") = inr None
  <-> 2%Z = 0%Z \/ [Scenario.the_daily_show; Scenario.the_daily] = [].
Proof.
  exact (searchApplePodcasts_null_iff ascii_toLowerCase Scenario.w_two_shows
           (js "Baz") 200
           {| resultCount := 2;
              results := [Scenario.the_daily_show; Scenario.the_daily] |}
           eq_refl eq_refl).
Defined.

(** X4 at the fallback scenario: "Baz" matches no candidate and the first
    one is returned. *)
Lemma searchApplePodcasts_sound_witness :
  In Scenario.the_daily_show [Scenario.the_daily_show; Scenario.the_daily]
  /\ (fuzzyMatch ascii_toLowerCase (collectionName Scenario.the_daily_show) (js "Baz")
      = true
      \/ exists rest,
          [Scenario.the_daily_show; Scenario.the_daily]
          = Scenario.the_daily_show :: rest).
Proof.
  exact (searchApplePodcasts_sound ascii_toLowerCase Scenario.w_two_shows
           (js "Baz") 200
           {| resultCount := 2;
              results := [Scenario.the_daily_show; Scenario.the_daily] |}
           Scenario.the_daily_show eq_refl eq_refl eq_refl).
Defined.

(** ** The error paths of the handler *)

Section ErrorPaths.

Variable toLowerCase : jsstring -> jsstring.
Variable w : World.

(** X5.  Whatever [searchApplePodcasts] or [fetchAndParseRSSFeed] throws is
    reported with status 500 and the message of the exception, unchanged. *)
Theorem exceptions_are_reported (showName episodeTitle : jsstring) :
  showName <> [] -> episodeTitle <> [] ->
  (forall message,
      searchApplePodcasts toLowerCase w showName = inl message ->
      fetch toLowerCase w (post showName episodeTitle)
      = Some (jsonResponse
          (ErrorPayload (js "Internal server error") (Some message) None) 500))
  /\ (forall p feedurl message,
      searchApplePodcasts toLowerCase w showName = inr (Some p) ->
      feedUrl p = Some feedurl -> feedurl <> [] ->
      fetchAndParseRSSFeed w feedurl = inl message ->
      fetch toLowerCase w (post showName episodeTitle)
      = Some (jsonResponse
          (ErrorPayload (js "Internal server error") (Some message) None) 500)).
Proof.
  intros Hs He. rewrite (fetch_post toLowerCase w _ _ Hs He).
  unfold resolve, tryBlock. split.
  - intros message ->. reflexivity.
  - intros p feedurl message -> Hurl Hne Hfeed. cbn. rewrite Hurl.
    destruct feedurl as [|c feedurl]; [contradiction|]. cbn.
    rewrite Hfeed. reflexivity.
Qed.

(** X6.  When the search returns null the response is 404 "Podcast not
    found", quoting the show name as it was sent; the feed servers play no
    part in it. *)
Theorem show_not_found (showName episodeTitle : jsstring) :
  showName <> [] -> episodeTitle <> [] ->
  searchApplePodcasts toLowerCase w showName = inr None ->
  forall feed',
    fetch toLowerCase {| directory := directory w; feed := feed' |}
          (post showName episodeTitle)
    = Some (jsonResponse
        (ErrorPayload (js "Podcast not found")
           (Some (js "No podcast found matching " ++ dquote ++ showName ++ dquote))
           None)
        404).
Proof.
  intros Hs He Hsearch feed'.
  rewrite (fetch_post _ _ _ _ Hs He).
  unfold resolve, tryBlock.
  change (searchApplePodcasts toLowerCase {| directory := directory w; feed := feed' |} showName)
    with (searchApplePodcasts toLowerCase w showName).
  rewrite Hsearch. reflexivity.
Qed.

(** X7.  When the selected show has no feed URL, or an empty one, the
    response is 404 "No feed URL", naming the show as the directory names
    it; the feed servers play no part in it. *)
Theorem no_feed_url (showName episodeTitle : jsstring) (p : ApplePodcastResult) :
  showName <> [] -> episodeTitle <> [] ->
  searchApplePodcasts toLowerCase w showName = inr (Some p) ->
  feedUrl p = None \/ feedUrl p = Some [] ->
  forall feed',
    fetch toLowerCase {| directory := directory w; feed := feed' |}
          (post showName episodeTitle)
    = Some (jsonResponse
        (ErrorPayload (js "No feed URL")
           (Some (js "Podcast " ++ dquote ++ collectionName p ++ dquote
                  ++ js " has no RSS feed URL"))
           None)
        404).
Proof.
  intros Hs He Hsearch Hurl feed'.
  rewrite (fetch_post _ _ _ _ Hs He).
  unfold resolve, tryBlock.
  change (searchApplePodcasts toLowerCase {| directory := directory w; feed := feed' |} showName)
    with (searchApplePodcasts toLowerCase w showName).
  rewrite Hsearch. cbn. destruct Hurl as [-> | ->]; reflexivity.
Qed.

(** X8.  When the feed of the selected show has no entry the response is
    404 "No episodes", whatever episode title was asked for. *)
Theorem no_episodes (showName episodeTitle : jsstring) (p : ApplePodcastResult)
    (feedurl : jsstring) :
  showName <> [] -> episodeTitle <> [] ->
  searchApplePodcasts toLowerCase w showName = inr (Some p) ->
  feedUrl p = Some feedurl -> feedurl <> [] ->
  fetchAndParseRSSFeed w feedurl = inr [] ->
  fetch toLowerCase w (post showName episodeTitle)
  = Some (jsonResponse
      (ErrorPayload (js "No episodes")
         (Some (js "Podcast " ++ dquote ++ collectionName p ++ dquote
                ++ js " has no episodes"))
         None)
      404).
Proof.
  intros Hs He Hsearch Hurl Hne Hfeed.
  rewrite (fetch_post _ _ _ _ Hs He).
  unfold resolve, tryBlock. rewrite Hsearch. cbn. rewrite Hurl.
  destruct feedurl as [|c feedurl]; [contradiction|]. cbn.
  rewrite Hfeed. reflexivity.
Qed.

End ErrorPaths.

(** X5 with the directory answering 503. *)
Lemma exceptions_are_reported_witness :
  fetch ascii_toLowerCase Failing.w_directory_down
        (post (js "The Daily") (js "Latest Episode"))
  = Some (jsonResponse
      (ErrorPayload (js "Internal server error")
         (Some (js "Apple Search API error: 503")) None)
      500).
Proof.
  refine (proj1 (exceptions_are_reported ascii_toLowerCase Failing.w_directory_down
                   (js "The Daily") (js "Latest Episode") _ _)
                (js "Apple Search API error: 503") eq_refl);
    vm_compute; discriminate.
Defined.

(** X6 with an empty directory answer, and a feed server that is down. *)
Lemma show_not_found_witness :
  fetch ascii_toLowerCase
        {| directory := directory Failing.w_no_results;
           feed := feed Scenario.w_feed_down |}
        (post (js "Obscure") (js "Latest Episode"))
  = Some (jsonResponse
      (ErrorPayload (js "Podcast not found")
         (Some (js "No podcast found matching " ++ dquote ++ js "Obscure" ++ dquote))
         None)
      404).
Proof.
  refine (show_not_found ascii_toLowerCase Failing.w_no_results
            (js "Obscure") (js "Latest Episode") _ _ eq_refl
            (feed Scenario.w_feed_down));
    vm_compute; discriminate.
Defined.

(** X7 with a candidate that has no [feedUrl]. *)
Lemma no_feed_url_witness :
  fetch ascii_toLowerCase
        {| directory := directory Failing.w_no_feed_url;
           feed := feed Scenario.w_feed_down |}
        (post (js "No Feed") (js "Latest Episode"))
  = Some (jsonResponse
      (ErrorPayload (js "No feed URL")
         (Some (js "Podcast " ++ dquote ++ js "No Feed" ++ dquote
                ++ js " has no RSS feed URL"))
         None)
      404).
Proof.
  refine (no_feed_url ascii_toLowerCase Failing.w_no_feed_url
            (js "No Feed") (js "Latest Episode") Failing.no_feed_show
            _ _ eq_refl (or_introl eq_refl) (feed Scenario.w_feed_down));
    vm_compute; discriminate.
Defined.

(** X8 with a channel that has no entry. *)
Lemma no_episodes_witness :
  fetch ascii_toLowerCase Failing.w_no_entries
        (post (js "The Daily") (js "Latest Episode"))
  = Some (jsonResponse
      (ErrorPayload (js "No episodes")
         (Some (js "Podcast " ++ dquote ++ js "The Daily" ++ dquote
                ++ js " has no episodes"))
         None)
      404).
Proof.
  refine (no_episodes ascii_toLowerCase Failing.w_no_entries
            (js "The Daily") (js "Latest Episode") Scenario.the_daily
            (js "https://example.test/feed") _ _ eq_refl eq_refl _ eq_refl);
    vm_compute; discriminate.
Defined.

(** ** Validation, and the responses there are *)

Section Responses.

Variable toLowerCase : jsstring -> jsstring.

(** X9.  A request that is not a POST carrying two non-empty strings is
    dealt with by the validation alone: what happens is the same whatever
    the directory and the feed servers would say.  When the request is a
    POST whose body is [null], and only then, the handler throws and there
    is no response; otherwise the response has status 204, 405 or 400. *)
Theorem invalid_request_never_reaches_the_network (request : Request) :
  (forall showName episodeTitle,
      showName <> [] -> episodeTitle <> [] -> request <> post showName episodeTitle) ->
  forall w w',
    fetch toLowerCase w request = fetch toLowerCase w' request
    /\ (fetch toLowerCase w request = None
        <-> method request = POST /\ json request = inr JsonNull)
    /\ (forall r, fetch toLowerCase w request = Some r ->
                  In (status r) [204; 405; 400]%Z).
Proof.
  intros Hinvalid w w'. destruct request as [m j]. unfold fetch. cbn.
  assert (Hstatus : forall (e : jsstring) (st : Z),
             In st [204; 405; 400]%Z ->
             forall r, Some (jsonResponse (ErrorPayload e None None) st) = Some r ->
                       In (status r) [204; 405; 400]%Z).
  { intros e st Hst r H. injection H as <-. exact Hst. }
  destruct m.
  - split; [reflexivity|]. split.
    + split; [discriminate | intros [H _]; discriminate].
    + intros r H. injection H as <-. left; reflexivity.
  - destruct j as [msg|[|[fs fe]]].
    + split; [reflexivity|]. split.
      * split; [discriminate | intros [_ H]; discriminate].
      * apply Hstatus. right; right; left; reflexivity.
    + split; [reflexivity|]. split.
      * split; intros _; [split|]; reflexivity.
      * discriminate.
    + cbn.
      assert (Hnot_null : @inr jsstring JsonBody (JsonValue
                             {| showName_field := fs; episodeTitle_field := fe |})
                          <> inr JsonNull) by discriminate.
      destruct fs as [| |[|c s]];
        try (split; [reflexivity|]; split;
             [split; [discriminate | intros [_ H]; contradiction]
             | apply Hstatus; right; right; left; reflexivity]).
      destruct fe as [| |[|d e]];
        try (split; [reflexivity|]; split;
             [split; [discriminate | intros [_ H]; contradiction]
             | apply Hstatus; right; right; left; reflexivity]).
      exfalso.
      apply (Hinvalid (c :: s) (d :: e)); [discriminate | discriminate | reflexivity].
  - split; [reflexivity|]. split.
    + split; [discriminate | intros [H _]; discriminate].
    + apply Hstatus. right; left; reflexivity.
Qed.

(** X10.  The responses of the worker.  Every response is one of: 204
    without a body; 405 or 400 with an error code alone; 404 with one of the
    codes "Podcast not found", "No feed URL", "No episodes" and a message;
    404 with "Episode not found", a message and between one and five hint
    titles; 500 with "Internal server error" and a message; 200 with the
    success payload.  So the status is 200 exactly for the success payload
    and hints come with "Episode not found" only. *)
Theorem fetch_taxonomy (w : World) (request : Request) (r : Response) :
  fetch toLowerCase w request = Some r ->
  (status r = 204%Z /\ body r = None)
  \/ (status r = 405%Z
      /\ body r = Some (ErrorPayload (js "Method not allowed. Use POST.") None None))
  \/ (status r = 400%Z
      /\ exists e, body r = Some (ErrorPayload e None None)
                   /\ In e [js "Invalid JSON body";
                            js "Missing or invalid 'showName' field";
                            js "Missing or invalid 'episodeTitle' field"])
  \/ (status r = 404%Z
      /\ exists e m, body r = Some (ErrorPayload e (Some m) None)
                     /\ In e [js "Podcast not found"; js "No feed URL"; js "No episodes"])
  \/ (status r = 404%Z
      /\ exists m hints,
          body r = Some (ErrorPayload (js "Episode not found") (Some m) (Some hints))
          /\ (1 <= List.length hints <= 5)%nat)
  \/ (status r = 500%Z
      /\ exists m, body r = Some (ErrorPayload (js "Internal server error") (Some m) None))
  \/ (status r = 200%Z
      /\ exists url n id t g, body r = Some (SuccessPayload url n id t g)).
Proof.
  unfold fetch.
  destruct (method request).
  - intros H; injection H as <-. left. split; reflexivity.
  - destruct (json request) as [msg|[|[fs fe]]].
    + intros H; injection H as <-.
      right; right; left. split; [reflexivity|]. eexists. split; [reflexivity|].
      left; reflexivity.
    + discriminate.
    + cbn.
      destruct fs as [| |[|c s]];
        try (intros H; injection H as <-;
             right; right; left; split; [reflexivity|]; eexists;
             split; [reflexivity | right; left; reflexivity]).
      destruct fe as [| |[|d e]];
        try (intros H; injection H as <-;
             right; right; left; split; [reflexivity|]; eexists;
             split; [reflexivity | right; right; left; reflexivity]).
      intros H; injection H as <-.
      unfold resolve, tryBlock.
      destruct (searchApplePodcasts toLowerCase w (c :: s)) as [msg|[p|]]; cbn.
      * do 5 right; left. split; [reflexivity|]. eexists; reflexivity.
      * destruct (feedUrl p) as [[|c' u]|]; cbn.
        -- do 3 right; left. split; [reflexivity|]. do 2 eexists.
           split; [reflexivity | right; left; reflexivity].
        -- destruct (fetchAndParseRSSFeed w (c' :: u)) as [msg|episodes]; cbn.
           ++ do 5 right; left. split; [reflexivity|]. eexists; reflexivity.
           ++ destruct episodes as [|e0 rest]; cbn.
              ** do 3 right; left. split; [reflexivity|]. do 2 eexists.
                 split; [reflexivity | right; right; left; reflexivity].
              ** destruct (findEpisode toLowerCase (e0 :: rest) (d :: e)) as [ep|]; cbn.
                 --- rewrite toUrlSafeBase64_unfold. cbn.
                     do 6 right. split; [reflexivity|]. do 5 eexists; reflexivity.
                 --- do 4 right; left. split; [reflexivity|]. do 2 eexists.
                     split; [reflexivity|].
                     rewrite length_map. unfold slice0. rewrite length_firstn.
                     cbn [List.length]. lia.
        -- do 3 right; left. split; [reflexivity|]. do 2 eexists.
           split; [reflexivity | right; left; reflexivity].
      * do 3 right; left. split; [reflexivity|]. do 2 eexists.
        split; [reflexivity | left; reflexivity].
  - intros H; injection H as <-. right; left. split; reflexivity.
Qed.

(** X11.  The only feed the worker retrieves is the feed of the show it
    selected: two worlds with the same directory whose feed servers agree on
    that URL give the same response. *)
Theorem fetch_feed_locality (w w' : World) (request : Request) :
  (forall showName, directory w showName = directory w' showName) ->
  (forall showName p feedurl,
      searchApplePodcasts toLowerCase w showName = inr (Some p) ->
      feedUrl p = Some feedurl -> feed w feedurl = feed w' feedurl) ->
  fetch toLowerCase w request = fetch toLowerCase w' request.
Proof.
  intros Hdir Hfeed. unfold fetch.
  destruct (method request); try reflexivity.
  destruct (json request) as [msg|[|[fs fe]]]; try reflexivity. cbn.
  destruct fs as [| |[|c s]]; try reflexivity.
  destruct fe as [| |[|d e]]; try reflexivity.
  f_equal. unfold resolve, tryBlock.
  assert (Hs : searchApplePodcasts toLowerCase w' (c :: s)
               = searchApplePodcasts toLowerCase w (c :: s)).
  { unfold searchApplePodcasts. rewrite Hdir. reflexivity. }
  rewrite Hs.
  destruct (searchApplePodcasts toLowerCase w (c :: s)) as [msg|[p|]] eqn:Es;
    try reflexivity. cbn.
  destruct (feedUrl p) as [[|c' u]|] eqn:Eu; try reflexivity. cbn.
  assert (Hf : fetchAndParseRSSFeed w' (c' :: u) = fetchAndParseRSSFeed w (c' :: u)).
  { unfold fetchAndParseRSSFeed. rewrite (Hfeed _ _ _ Es Eu). reflexivity. }
  rewrite Hf. reflexivity.
Qed.

(** X12.  The link of a success payload is built from the payload's own
    [appleId] and [guid]: it is "https://pod.link/", the id as a template
    literal renders it (its decimal digits when it is a safe integer),
    "/episode/" and the token of the identifier, and the token only has
    characters of [[A-Za-z0-9_-]].  The status is 200. *)
Theorem success_link_shape (w : World) (request : Request) (st : Z)
    (url n : jsstring) (id : jsnumber) (t g : jsstring) :
  fetch toLowerCase w request
  = Some {| status := st; body := Some (SuccessPayload url n id t g) |} ->
  wf_number id ->
  st = 200%Z
  /\ exists token,
      toUrlSafeBase64 g = inr token
      /\ forallb Spec.url_safe_char token = true
      /\ url = js "https://pod.link/" ++ jsnumber_toString id
               ++ js "/episode/" ++ token.
Proof.
  intros H _.
  destruct (fetch_cases toLowerCase w request)
    as [(showName & episodeTitle & _ & Hr)
       | [Hnone | [(r & Hr & Hb) | (r & e & Hr & He & _)]]].
  - rewrite Hr in H. injection H as H.
    destruct (resolve_success _ _ _ _ _ _ _ _ _ _ H)
      as (p & feedurl & episodes & ep & enc & _ & _ & _ & _ & _ & Henc & -> & -> & _
          & -> & _ & ->).
    split; [reflexivity|]. exists enc. split; [exact Henc|].
    split; [exact (toUrlSafeBase64_alphabet _ _ Henc) | reflexivity].
  - rewrite H in Hnone. discriminate.
  - rewrite H in Hr. injection Hr as <-. discriminate.
  - rewrite H in Hr. injection Hr as <-. discriminate.
Qed.

End Responses.

(** X9 at a request without [episodeTitle], in a world where everything
    works and in one where the feed server is down. *)
Lemma invalid_request_never_reaches_the_network_witness :
  fetch ascii_toLowerCase Scenario.w_scenario Failing.request_without_title
  = fetch ascii_toLowerCase Scenario.w_feed_down Failing.request_without_title
  /\ (fetch ascii_toLowerCase Scenario.w_scenario Failing.request_without_title
      = None
      <-> method Failing.request_without_title = POST
          /\ json Failing.request_without_title = inr JsonNull)
  /\ (forall r,
        fetch ascii_toLowerCase Scenario.w_scenario Failing.request_without_title
        = Some r ->
        In (status r) [204; 405; 400]%Z).
Proof.
  apply (invalid_request_never_reaches_the_network ascii_toLowerCase
           Failing.request_without_title).
  intros showName episodeTitle _ _. discriminate.
Defined.

(** The two requests: the missing title is answered with 400, the [null]
    body is not answered. *)
Example fetch_without_title :
  fetch ascii_toLowerCase Scenario.w_scenario Failing.request_without_title
  = Some (jsonResponse
            (ErrorPayload (js "Missing or invalid 'episodeTitle' field") None None)
            400).
Proof. reflexivity. Qed.

Example fetch_null_body :
  fetch ascii_toLowerCase Scenario.w_scenario Failing.request_null_body = None.
Proof. reflexivity. Qed.

(** X11 at the end-to-end scenario, against a world where every other feed
    URL answers 503. *)
Lemma fetch_feed_locality_witness :
  fetch ascii_toLowerCase Scenario.w_scenario
        (post (js "The Daily") (js "Latest Episode"))
  = fetch ascii_toLowerCase Failing.w_other_feeds_down
          (post (js "The Daily") (js "Latest Episode")).
Proof.
  apply (fetch_feed_locality ascii_toLowerCase Scenario.w_scenario
           Failing.w_other_feeds_down).
  - reflexivity.
  - intros showName p feedurl Hs Hu.
    destruct (searchApplePodcasts_inr _ _ _ _ Hs) as (st & data & Hd & _ & Hsel).
    injection Hd as _ <-. symmetry in Hsel.
    apply selectShow_In in Hsel. destruct Hsel as [<- | []].
    injection Hu as <-. reflexivity.
Defined.

(** X12 at the end-to-end scenario. *)
Lemma success_link_shape_witness :
  200%Z = 200%Z
  /\ exists token,
      toUrlSafeBase64 (js "guid-1") = inr token
      /\ forallb Spec.url_safe_char token = true
      /\ js "https://pod.link/1234567890/episode/Z3VpZC0x"
         = js "https://pod.link/" ++ jsnumber_toString (SafeInteger 1234567890)
           ++ js "/episode/" ++ token.
Proof.
  exact (success_link_shape ascii_toLowerCase Scenario.w_scenario
           (post (js "The Daily") (js "Latest Episode")) 200
           (js "https://pod.link/1234567890/episode/Z3VpZC0x")
           (js "The Daily") (SafeInteger 1234567890) (js "Latest Episode")
           (js "guid-1") eq_refl ltac:(vm_compute; discriminate)).
Defined.

(** X10 at the end-to-end scenario: the response is of the last kind. *)
Lemma fetch_taxonomy_witness :
  let r := jsonResponse
             (SuccessPayload (js "https://pod.link/1234567890/episode/Z3VpZC0x")
                (js "The Daily") (SafeInteger 1234567890) (js "Latest Episode")
                (js "guid-1"))
             200 in
  (status r = 204%Z /\ body r = None)
  \/ (status r = 405%Z
      /\ body r = Some (ErrorPayload (js "Method not allowed. Use POST.") None None))
  \/ (status r = 400%Z
      /\ exists e, body r = Some (ErrorPayload e None None)
                   /\ In e [js "Invalid JSON body";
                            js "Missing or invalid 'showName' field";
                            js "Missing or invalid 'episodeTitle' field"])
  \/ (status r = 404%Z
      /\ exists e m, body r = Some (ErrorPayload e (Some m) None)
                     /\ In e [js "Podcast not found"; js "No feed URL"; js "No episodes"])
  \/ (status r = 404%Z
      /\ exists m hints,
          body r = Some (ErrorPayload (js "Episode not found") (Some m) (Some hints))
          /\ (1 <= List.length hints <= 5)%nat)
  \/ (status r = 500%Z
      /\ exists m, body r = Some (ErrorPayload (js "Internal server error") (Some m) None))
  \/ (status r = 200%Z
      /\ exists url n id t g, body r = Some (SuccessPayload url n id t g)).
Proof.
  exact (fetch_taxonomy ascii_toLowerCase Scenario.w_scenario
           (post (js "The Daily") (js "Latest Episode")) _ eq_refl).
Defined.

(** ** Matching *)

Section Matching.

Variable toLowerCase : jsstring -> jsstring.

Lemma includes_nil s : includes s [] = true.
Proof. destruct s; reflexivity. Qed.

Lemma exact_is_fuzzy a b :
  str_eqb (normalizeText toLowerCase a) (normalizeText toLowerCase b) = true ->
  fuzzyMatch toLowerCase a b = true.
Proof. intros H. unfold fuzzyMatch. cbv zeta. rewrite H. reflexivity. Qed.

(** X13.  [findEpisode] finds an episode exactly when some episode
    fuzzy-matches the target: the episode it returns is an entry of the list
    whose title fuzzy-matches, and it returns null only when no title of
    the list does. *)
Theorem findEpisode_fuzzy (episodes : list RSSItem) (episodeTitle : jsstring) :
  (forall ep, findEpisode toLowerCase episodes episodeTitle = Some ep ->
              In ep episodes /\ fuzzyMatch toLowerCase (title ep) episodeTitle = true)
  /\ (findEpisode toLowerCase episodes episodeTitle = None
      <-> forall ep, In ep episodes ->
                     fuzzyMatch toLowerCase (title ep) episodeTitle = false).
Proof.
  unfold findEpisode. cbv zeta.
  destruct (find (fun ep => str_eqb _ _) episodes) as [x|] eqn:E1.
  - apply find_some in E1 as [Hin Hx]. split.
    + intros ep H; injection H as <-. split; [exact Hin | exact (exact_is_fuzzy _ _ Hx)].
    + split; [discriminate|]. intros H.
      specialize (H x Hin). rewrite (exact_is_fuzzy _ _ Hx) in H. discriminate H.
  - split.
    + intros ep H. exact (find_some _ _ H).
    + split.
      * intros H ep Hin. exact (find_none _ _ H ep Hin).
      * intros H.
        destruct (find (fun ep => fuzzyMatch _ _ _) episodes) as [y|] eqn:E2;
          [|reflexivity].
        apply find_some in E2 as [Hin Hy]. rewrite (H y Hin) in Hy. discriminate.
Qed.

(** X14.  A target that normalizes to the empty string (a title made of
    whitespace passes the validation) fuzzy-matches every title, so that on
    a non-empty list [findEpisode] never returns null: it returns the first
    entry, unless an entry whose title also normalizes to the empty string
    takes precedence. *)
Theorem findEpisode_blank_target (e0 : RSSItem) (rest : list RSSItem)
    (episodeTitle : jsstring) :
  normalizeText toLowerCase episodeTitle = [] ->
  exists ep,
    findEpisode toLowerCase (e0 :: rest) episodeTitle = Some ep
    /\ (ep = e0 \/ normalizeText toLowerCase (title ep) = []).
Proof.
  intros Hblank. unfold findEpisode. cbv zeta.
  destruct (find (fun ep => str_eqb _ _) (e0 :: rest)) as [x|] eqn:E1.
  - exists x. split; [reflexivity|]. right.
    apply find_some in E1 as [_ Hx]. apply JSFacts.str_eqb_eq in Hx.
    rewrite Hx. exact Hblank.
  - exists e0. split; [|left; reflexivity].
    cbn [find]. unfold fuzzyMatch at 1. cbv zeta.
    rewrite Hblank, includes_nil, orb_true_r. reflexivity.
Qed.

(** X15.  The result of [normalizeText] is in normal form whatever the case
    mapping does: it neither begins nor ends with whitespace, and each
    whitespace code unit in it is a single U+0020 between two
    non-whitespace code units. *)
Theorem normalizeText_shape (text : jsstring) :
  Spec.no_lead (normalizeText toLowerCase text)
  /\ Spec.no_trail (normalizeText toLowerCase text)
  /\ Shape.single_spaced (normalizeText toLowerCase text).
Proof.
  unfold normalizeText. split; [|split].
  - apply Whitespace.no_lead_replace, Whitespace.no_lead_trimEnd,
      Whitespace.no_lead_trimStart.
  - apply Whitespace.no_trail_replace, Whitespace.trimEnd_idem.
  - unfold replace_ws_runs. generalize (trim (toLowerCase text)). intros s.
    enough (H : forall b,
               Shape.single_spaced (replace_ws_from b s)
               /\ (b = true -> Spec.no_lead (replace_ws_from b s)))
      by exact (proj1 (H false)).
    induction s as [|u r IH]; intros b; cbn [replace_ws_from].
    + split; [exact I | intros _; exact I].
    + destruct (is_whitespace u) eqn:W.
      * destruct b.
        -- exact (IH true).
        -- split; [|discriminate]. cbn [Shape.single_spaced]. split.
           ++ intros _. split; [reflexivity | exact (proj2 (IH true) eq_refl)].
           ++ exact (proj1 (IH true)).
      * split.
        -- cbn [Shape.single_spaced]. split; [|exact (proj1 (IH false))].
           rewrite W. discriminate.
        -- intros _. exact W.
Qed.

End Matching.

(** X14 at a title of three spaces. *)
Lemma findEpisode_blank_target_witness :
  exists ep,
    findEpisode ascii_toLowerCase [Scenario.ep1; Scenario.ep2] (js "   ") = Some ep
    /\ (ep = Scenario.ep1 \/ normalizeText ascii_toLowerCase (title ep) = []).
Proof.
  exact (findEpisode_blank_target ascii_toLowerCase Scenario.ep1 [Scenario.ep2]
           (js "   ") eq_refl).
Defined.

(** ** The token of an identifier *)

Module Token.
Import Encoding.

Lemma toUrlSafeBase64_token s :
  toUrlSafeBase64 s = inr (Shape.url_token (TextEncoder_encode s)).
Proof. exact (toUrlSafeBase64_unfold s). Qed.

(** A character of the alphabet is kept by the removal of the padding. *)
Lemma replace_trailing_pad_cons i l :
  replace_trailing_pad (Spec.url_substitute (base64_char i) :: l)
  = Spec.url_substitute (base64_char i) :: replace_trailing_pad l.
Proof.
  cbn [replace_trailing_pad forallb].
  destruct (N.eqb_spec pad_char (Spec.url_substitute (base64_char i))) as [E|_];
    [|reflexivity].
  exfalso. apply (Base64.url_safe_not_pad _ (Base64.base64_char_url_safe i)).
  symmetry; exact E.
Qed.

(** The token, group by group. *)
Lemma url_token_1 a :
  Shape.url_token [a]
  = [Spec.url_substitute (base64_char (N.shiftr a 2));
     Spec.url_substitute (base64_char (N.shiftl (N.land a 3) 4))].
Proof.
  unfold Shape.url_token. cbn [base64_encode map].
  rewrite !replace_trailing_pad_cons. reflexivity.
Qed.

Lemma url_token_2 a b :
  Shape.url_token [a; b]
  = [Spec.url_substitute (base64_char (N.shiftr a 2));
     Spec.url_substitute
       (base64_char (N.lor (N.shiftl (N.land a 3) 4) (N.shiftr b 4)));
     Spec.url_substitute (base64_char (N.shiftl (N.land b 15) 2))].
Proof.
  unfold Shape.url_token. cbn [base64_encode map].
  rewrite !replace_trailing_pad_cons. reflexivity.
Qed.

Lemma url_token_3 a b c rest :
  Shape.url_token (a :: b :: c :: rest)
  = Spec.url_substitute (base64_char (N.shiftr a 2))
    :: Spec.url_substitute
         (base64_char (N.lor (N.shiftl (N.land a 3) 4) (N.shiftr b 4)))
    :: Spec.url_substitute
         (base64_char (N.lor (N.shiftl (N.land b 15) 2) (N.shiftr c 6)))
    :: Spec.url_substitute (base64_char (N.land c 63))
    :: Shape.url_token rest.
Proof.
  unfold Shape.url_token. cbn [base64_encode map].
  rewrite !replace_trailing_pad_cons. reflexivity.
Qed.

Lemma url_token_length bs :
  List.length (Shape.url_token bs) = ((4 * List.length bs + 2) / 3)%nat.
Proof.
  induction bs as [|a|a b|a b c rest IH] using Base64.triple_ind.
  - reflexivity.
  - rewrite url_token_1. reflexivity.
  - rewrite url_token_2. reflexivity.
  - rewrite url_token_3. cbn [List.length]. rewrite IH.
    replace (4 * S (S (S (List.length rest))) + 2)%nat
      with (4 * 3 + (4 * List.length rest + 2))%nat by lia.
    rewrite Nat.div_add_l by discriminate. reflexivity.
Qed.

(** An ASCII string is its own UTF-8 encoding. *)
Lemma TextEncoder_encode_ascii s :
  Forall (fun u => u < 128) s -> TextEncoder_encode s = s.
Proof.
  unfold TextEncoder_encode.
  induction 1 as [|u r Hu Hr IH]; [reflexivity|].
  cbn [to_scalar_values].
  assert (Hh : is_high_surrogate u = false).
  { unfold is_high_surrogate. destruct (N.leb_spec 55296 u); [lia | reflexivity]. }
  assert (Hl : is_low_surrogate u = false).
  { unfold is_low_surrogate. destruct (N.leb_spec 56320 u); [lia | reflexivity]. }
  rewrite Hh, Hl. cbn [flat_map]. rewrite IH.
  unfold utf8_encode_scalar. destruct (N.ltb_spec u 128); [|lia].
  cbn [map app]. rewrite to_uint8_small by lia. reflexivity.
Qed.

Lemma to_scalar_values_nil s : to_scalar_values s = [] -> s = [].
Proof.
  destruct s as [|u r]; [reflexivity|]. cbn [to_scalar_values].
  destruct (is_high_surrogate u).
  - destruct r as [|v r']; [discriminate|]. destruct (is_low_surrogate v); discriminate.
  - destruct (is_low_surrogate u); discriminate.
Qed.

Lemma utf8_encode_scalar_not_nil cp : utf8_encode_scalar cp <> [].
Proof.
  unfold utf8_encode_scalar.
  destruct (cp <? 128); [discriminate|].
  destruct (cp <? 2048); [discriminate|].
  destruct (cp <? 65536); discriminate.
Qed.

Lemma TextEncoder_encode_nil s : TextEncoder_encode s = [] -> s = [].
Proof.
  unfold TextEncoder_encode. intros H. apply to_scalar_values_nil.
  destruct (to_scalar_values s) as [|cp l]; [reflexivity|].
  cbn [flat_map] in H. apply app_eq_nil in H as [H _].
  exfalso. exact (utf8_encode_scalar_not_nil cp H).
Qed.

End Token.

(** X16.  The token has [ceil (4 n / 3)] characters for an identifier of
    [n] UTF-8 octets; for an ASCII identifier, [n] is its length. *)
Theorem toUrlSafeBase64_length (s token : jsstring) :
  toUrlSafeBase64 s = inr token ->
  List.length token = ((4 * List.length (TextEncoder_encode s) + 2) / 3)%nat
  /\ (Forall (fun u => u < 128) s ->
      List.length token = ((4 * List.length s + 2) / 3)%nat).
Proof.
  rewrite Token.toUrlSafeBase64_token. intros H; injection H as <-.
  split; [apply Token.url_token_length|].
  intros Hascii. rewrite Token.url_token_length.
  rewrite (Token.TextEncoder_encode_ascii s Hascii). reflexivity.
Qed.

(** X16 at "guid-1": six octets, eight characters. *)
Lemma toUrlSafeBase64_length_witness :
  List.length (js "Z3VpZC0x")
  = ((4 * List.length (TextEncoder_encode (js "guid-1")) + 2) / 3)%nat
  /\ (Forall (fun u => u < 128) (js "guid-1") ->
      List.length (js "Z3VpZC0x") = ((4 * List.length (js "guid-1") + 2) / 3)%nat).
Proof.
  exact (toUrlSafeBase64_length (js "guid-1") (js "Z3VpZC0x") eq_refl).
Defined.

(** X17.  The token is empty for the empty identifier and for no other. *)
Theorem toUrlSafeBase64_empty_iff (s : jsstring) :
  toUrlSafeBase64 s = inr [] <-> s = [].
Proof.
  split.
  - rewrite Token.toUrlSafeBase64_token. intros H; injection H as H.
    apply Token.TextEncoder_encode_nil.
    apply (f_equal (@List.length _)) in H. rewrite Token.url_token_length in H.
    cbn [List.length] in H.
    destruct (TextEncoder_encode s) as [|b l]; [reflexivity|].
    exfalso. cbn [List.length] in H.
    apply Nat.div_small_iff in H; [lia | discriminate].
  - intros ->. reflexivity.
Qed.

(** ** Distinct identifiers, distinct tokens *)

Module Decoding.
Import Encoding.

(** The alphabet is read back to the 6-bit values.  Checked on all 64. *)
Lemma sextet_of_char_spec i :
  i < 64 -> Shape.sextet_of_char (Spec.url_substitute (base64_char i)) = i.
Proof.
  intros Hi. apply N.eqb_eq.
  apply (forallb_below
           (fun i => Shape.sextet_of_char (Spec.url_substitute (base64_char i)) =? i)
           64); [vm_compute; reflexivity | exact Hi].
Qed.

Lemma first_sextet a : N.shiftr a 2 = a / 4.
Proof. arith_form. reflexivity. Qed.

Lemma second_sextet a b :
  b < 256 ->
  N.lor (N.shiftl (N.land a 3) 4) (N.shiftr b 4) = (a mod 4) * 16 + b / 16.
Proof. intros Hb. arith_form. apply lor_2_4; nlia. Qed.

Lemma third_sextet b c :
  c < 256 ->
  N.lor (N.shiftl (N.land b 15) 2) (N.shiftr c 6) = (b mod 16) * 4 + c / 64.
Proof. intros Hc. arith_form. apply lor_4_2; nlia. Qed.

Lemma fourth_sextet c : N.land c 63 = c mod 64.
Proof. arith_form. reflexivity. Qed.

Lemma second_sextet_final a : N.shiftl (N.land a 3) 4 = (a mod 4) * 16.
Proof. arith_form. reflexivity. Qed.

Lemma third_sextet_final b : N.shiftl (N.land b 15) 2 = (b mod 16) * 4.
Proof. arith_form. reflexivity. Qed.

(** Reading a token back gives the octets it was made from. *)
Lemma octets_of_url_token bs :
  Forall (fun b => b < 256) bs -> Shape.octets_of_token (Shape.url_token bs) = bs.
Proof.
  induction bs as [|a|a b|a b c rest IH] using Base64.triple_ind; intros H.
  - reflexivity.
  - inversion H as [|? ? Ha _]; subst.
    rewrite Token.url_token_1, first_sextet, second_sextet_final.
    cbn [Shape.octets_of_token]. rewrite !sextet_of_char_spec by nlia.
    f_equal. nlia.
  - inversion H as [|? ? Ha H']; subst. inversion H' as [|? ? Hb _]; subst.
    rewrite Token.url_token_2, first_sextet, (second_sextet a b Hb),
      third_sextet_final.
    cbn [Shape.octets_of_token]. cbv zeta. rewrite !sextet_of_char_spec by nlia.
    f_equal; [nlia|]. f_equal. nlia.
  - inversion H as [|? ? Ha H']; subst. inversion H' as [|? ? Hb H'']; subst.
    inversion H'' as [|? ? Hc Hrest]; subst.
    rewrite Token.url_token_3, first_sextet, (second_sextet a b Hb),
      (third_sextet b c Hc), fourth_sextet.
    cbn [Shape.octets_of_token]. cbv zeta. rewrite !sextet_of_char_spec by nlia.
    rewrite (IH Hrest).
    f_equal; [nlia|]. f_equal; [nlia|]. f_equal. nlia.
Qed.

Lemma url_token_injective bs bs' :
  Forall (fun b => b < 256) bs -> Forall (fun b => b < 256) bs' ->
  Shape.url_token bs = Shape.url_token bs' -> bs = bs'.
Proof.
  intros H H' E. rewrite <- (octets_of_url_token bs H), <- (octets_of_url_token bs' H').
  rewrite E. reflexivity.
Qed.

(** *** UTF-8 is prefix-free *)

(** The octets of a scalar value: how many there are is read off the
    first, and the scalar value off them. *)
Lemma utf8_cases cp :
  cp < 1114112 ->
  (cp < 128 /\ Spec.utf8 cp = [cp])
  \/ (exists b0 b1,
         Spec.utf8 cp = [b0; b1] /\ 192 <= b0 < 224 /\ 128 <= b1
         /\ cp = (b0 - 192) * 64 + (b1 - 128))
  \/ (exists b0 b1 b2,
         Spec.utf8 cp = [b0; b1; b2] /\ 224 <= b0 < 240 /\ 128 <= b1 /\ 128 <= b2
         /\ cp = (b0 - 224) * 4096 + (b1 - 128) * 64 + (b2 - 128))
  \/ (exists b0 b1 b2 b3,
         Spec.utf8 cp = [b0; b1; b2; b3] /\ 240 <= b0 < 248
         /\ 128 <= b1 /\ 128 <= b2 /\ 128 <= b3
         /\ cp = (b0 - 240) * 262144 + (b1 - 128) * 4096 + (b2 - 128) * 64
                 + (b3 - 128)).
Proof.
  intros Hcp. unfold Spec.utf8.
  destruct (N.ltb_spec cp 128); [left; split; [assumption | reflexivity]|].
  destruct (N.ltb_spec cp 2048).
  { right; left. do 2 eexists. split; [reflexivity|]. clear Hcp. nlia. }
  destruct (N.ltb_spec cp 65536).
  { right; right; left. do 3 eexists. split; [reflexivity|]. clear Hcp. nlia. }
  right; right; right. do 4 eexists. split; [reflexivity|]. nlia.
Qed.

Lemma cons_eq_inv {A} (a b : A) l l' : a :: l = b :: l' -> a = b /\ l = l'.
Proof. intros H; injection H; auto. Qed.

Ltac cons_eqs :=
  repeat match goal with
         | H : _ :: _ = _ :: _ |- _ => apply cons_eq_inv in H; destruct H
         end.

Lemma utf8_prefix_free cp cp' l l' :
  cp < 1114112 -> cp' < 1114112 ->
  Spec.utf8 cp ++ l = Spec.utf8 cp' ++ l' -> cp = cp' /\ l = l'.
Proof.
  intros Hcp Hcp'.
  destruct (utf8_cases cp Hcp)
    as [(B & ->) | [(b0 & b1 & -> & B0 & B1 & C)
       | [(b0 & b1 & b2 & -> & B0 & B1 & B2 & C)
       | (b0 & b1 & b2 & b3 & -> & B0 & B1 & B2 & B3 & C)]]];
    destruct (utf8_cases cp' Hcp')
      as [(B' & ->) | [(b0' & b1' & -> & B0' & B1' & C')
         | [(b0' & b1' & b2' & -> & B0' & B1' & B2' & C')
         | (b0' & b1' & b2' & b3' & -> & B0' & B1' & B2' & B3' & C')]]];
    cbn [app]; intros E; cons_eqs; subst;
    first [ split; reflexivity | exfalso; lia ].
Qed.

Lemma utf8_not_nil cp : Spec.utf8 cp <> [].
Proof.
  unfold Spec.utf8.
  destruct (cp <? 128); [discriminate|].
  destruct (cp <? 2048); [discriminate|].
  destruct (cp <? 65536); discriminate.
Qed.

Lemma utf8_bytes_injective cps cps' :
  Forall (fun cp => cp < 1114112) cps -> Forall (fun cp => cp < 1114112) cps' ->
  flat_map Spec.utf8 cps = flat_map Spec.utf8 cps' -> cps = cps'.
Proof.
  intros H; revert cps'. induction H as [|cp l Hcp Hl IH]; intros cps' H' E.
  - destruct cps' as [|cp' l']; [reflexivity|]. cbn [flat_map] in E.
    symmetry in E. apply app_eq_nil in E as [E _]. exfalso. exact (utf8_not_nil _ E).
  - destruct H' as [|cp' l' Hcp' Hl'].
    + cbn [flat_map] in E. apply app_eq_nil in E as [E _].
      exfalso. exact (utf8_not_nil _ E).
    + cbn [flat_map] in E.
      destruct (utf8_prefix_free _ _ _ _ Hcp Hcp' E) as [-> E'].
      rewrite (IH l' Hl' E'). reflexivity.
Qed.

(** *** Surrogate pairs are read back *)

Lemma high_surrogate_range u : is_high_surrogate u = true <-> 55296 <= u <= 56319.
Proof. unfold is_high_surrogate. rewrite andb_true_iff, !N.leb_le. reflexivity. Qed.

Lemma low_surrogate_range u : is_low_surrogate u = true <-> 56320 <= u <= 57343.
Proof. unfold is_low_surrogate. rewrite andb_true_iff, !N.leb_le. reflexivity. Qed.

Lemma not_high_surrogate u : is_high_surrogate u = false -> u < 55296 \/ 56319 < u.
Proof.
  unfold is_high_surrogate.
  destruct (N.leb_spec 55296 u), (N.leb_spec u 56319); cbn; try discriminate; lia.
Qed.

Lemma not_low_surrogate u : is_low_surrogate u = false -> u < 56320 \/ 57343 < u.
Proof.
  unfold is_low_surrogate.
  destruct (N.leb_spec 56320 u), (N.leb_spec u 57343); cbn; try discriminate; lia.
Qed.

(** The first scalar value and the rest, for a string without lone
    surrogates. *)
Lemma to_scalar_values_cons u r :
  Shape.well_paired (u :: r) = true -> u < 65536 ->
  (is_high_surrogate u = false /\ is_low_surrogate u = false
   /\ Shape.well_paired r = true
   /\ to_scalar_values (u :: r) = u :: to_scalar_values r)
  \/ (exists v r', r = v :: r' /\ 55296 <= u <= 56319 /\ 56320 <= v <= 57343
                   /\ Shape.well_paired r' = true
                   /\ to_scalar_values (u :: r)
                      = (65536 + (u - 55296) * 1024 + (v - 56320))
                        :: to_scalar_values r').
Proof.
  cbn [Shape.well_paired to_scalar_values]. intros H Hu.
  destruct (is_high_surrogate u) eqn:Hh.
  - right. destruct r as [|v r']; [discriminate|].
    apply andb_true_iff in H as [Hl Hr]. rewrite Hl.
    exists v, r'. rewrite N.shiftl_mul_pow2. change (2 ^ 10) with 1024.
    apply high_surrogate_range in Hh. apply low_surrogate_range in Hl.
    repeat split; try assumption; lia.
  - left. apply andb_true_iff in H as [Hl Hr].
    apply negb_true_iff in Hl. rewrite Hl. repeat split; assumption.
Qed.

Lemma to_scalar_values_injective s t :
  Spec.wf_string s -> Spec.wf_string t ->
  Shape.well_paired s = true -> Shape.well_paired t = true ->
  to_scalar_values s = to_scalar_values t -> s = t.
Proof.
  unfold Spec.wf_string. revert t.
  induction s as [|u r IH1 IH2] using pair_ind; intros t Hs Ht Ps Pt E.
  - symmetry. apply Token.to_scalar_values_nil. symmetry; exact E.
  - destruct t as [|u' t'].
    + apply Token.to_scalar_values_nil in E. discriminate.
    + inversion Hs as [|? ? Hu Hr]; subst. inversion Ht as [|? ? Hu' Hr']; subst.
      destruct (to_scalar_values_cons u r Ps Hu)
        as [(Hh & Hl & Pr & Eu) | (v & r' & -> & Bu & Bv & Pr & Eu)];
        destruct (to_scalar_values_cons u' t' Pt Hu')
          as [(Hh' & Hl' & Pr' & Eu') | (v' & t'' & -> & Bu' & Bv' & Pr' & Eu')];
        rewrite Eu, Eu' in E; apply cons_eq_inv in E as [E0 E1].
      * subst u'. rewrite (IH1 t' Hr Hr' Pr Pr' E1). reflexivity.
      * exfalso. lia.
      * exfalso. lia.
      * inversion Hr as [|? ? Hv Hr0]; subst. inversion Hr' as [|? ? Hv' Hr0']; subst.
        assert (u = u' /\ v = v') as [-> ->] by lia.
        rewrite (IH2 v' r' eq_refl t'' Hr0 Hr0' Pr Pr' E1). reflexivity.
Qed.

End Decoding.

(** X18.  Distinct identifiers get distinct tokens: on strings without lone
    surrogates [toUrlSafeBase64] is injective.  (A lone surrogate is encoded
    as U+FFFD, so two identifiers that differ in lone surrogates only do
    share their token.) *)
Theorem toUrlSafeBase64_injective (s t : jsstring) :
  Spec.wf_string s -> Spec.wf_string t ->
  Shape.well_paired s = true -> Shape.well_paired t = true ->
  s <> t -> toUrlSafeBase64 s <> toUrlSafeBase64 t.
Proof.
  intros Hs Ht Ps Pt Hne E. apply Hne.
  rewrite !Token.toUrlSafeBase64_token in E. injection E as E.
  apply Decoding.url_token_injective in E;
    try apply Encoding.TextEncoder_encode_octets.
  rewrite (Encoding.TextEncoder_encode_spec s Hs),
    (Encoding.TextEncoder_encode_spec t Ht) in E.
  apply Decoding.to_scalar_values_injective; try assumption.
  apply Decoding.utf8_bytes_injective; try assumption;
    apply Encoding.to_scalar_values_bound; assumption.
Qed.

(** X18 at two identifiers that differ in their last character. *)
Lemma toUrlSafeBase64_injective_witness :
  toUrlSafeBase64 (js "guid-1") <> toUrlSafeBase64 (js "guid-2").
Proof.
  apply toUrlSafeBase64_injective.
  - unfold Spec.wf_string. repeat constructor.
  - unfold Spec.wf_string. repeat constructor.
  - reflexivity.
  - reflexivity.
  - vm_compute. discriminate.
Defined.

(** The token shared by two lone surrogates. *)
Example toUrlSafeBase64_lone_surrogates :
  toUrlSafeBase64 [55357] = toUrlSafeBase64 [56832].
Proof. reflexivity. Qed.

(** ** No episode found, and the two forms of an identifier *)

Section Episodes.

Variable toLowerCase : jsstring -> jsstring.
Variable w : World.

(** X19.  When the feed of the selected show has entries and
    [findEpisode] returns null, the response is 404 "Episode not found",
    quoting the title asked for and the show's name, with the titles of the
    first five entries (of all of them when there are fewer) as hints. *)
Theorem episode_not_found (showName episodeTitle : jsstring)
    (p : ApplePodcastResult) (feedurl : jsstring) (episodes : list RSSItem) :
  showName <> [] -> episodeTitle <> [] ->
  searchApplePodcasts toLowerCase w showName = inr (Some p) ->
  feedUrl p = Some feedurl -> feedurl <> [] ->
  fetchAndParseRSSFeed w feedurl = inr episodes -> episodes <> [] ->
  findEpisode toLowerCase episodes episodeTitle = None ->
  fetch toLowerCase w (post showName episodeTitle)
  = Some (jsonResponse
      (ErrorPayload (js "Episode not found")
         (Some (js "No episode found matching " ++ dquote ++ episodeTitle ++ dquote
                ++ js " in " ++ dquote ++ collectionName p ++ dquote))
         (Some (map title (firstn 5 episodes))))
      404).
Proof.
  intros Hs He Hsearch Hurl Hne Hfeed Heps Hfind.
  rewrite (fetch_post _ _ _ _ Hs He).
  unfold resolve, tryBlock. rewrite Hsearch. cbn. rewrite Hurl.
  destruct feedurl as [|c feedurl]; [contradiction|]. cbn.
  rewrite Hfeed. cbn.
  destruct episodes as [|e0 rest]; [contradiction|]. cbn.
  rewrite Hfind. reflexivity.
Qed.

Lemma find_map {A B} (f : B -> bool) (g : A -> B) l :
  find f (map g l) = option_map g (find (fun x => f (g x)) l).
Proof.
  induction l as [|x l IH]; [reflexivity|]. cbn [map find].
  destruct (f (g x)); [reflexivity | exact IH].
Qed.

Lemma findEpisode_plain episodes episodeTitle :
  findEpisode toLowerCase (map Shape.plain_entry episodes) episodeTitle
  = option_map Shape.plain_entry (findEpisode toLowerCase episodes episodeTitle).
Proof.
  unfold findEpisode. cbv zeta. rewrite !find_map. cbn [Shape.plain_entry title].
  destruct (find _ episodes); reflexivity.
Qed.

Lemma fetchAndParseRSSFeed_plain feedurl :
  fetchAndParseRSSFeed (Shape.plain_world w) feedurl
  = match fetchAndParseRSSFeed w feedurl with
    | inl m => inl m
    | inr episodes => inr (map Shape.plain_entry episodes)
    end.
Proof.
  unfold fetchAndParseRSSFeed. cbn [Shape.plain_world feed].
  destruct (feed w feedurl) as [m|st [m|parsed]]; cbn [Shape.plain_reply].
  - reflexivity.
  - destruct (ok st); reflexivity.
  - destruct (ok st); [|reflexivity]. cbn.
    unfold channelItems, rss_channel. cbv zeta.
    destruct parsed as [[[[ch|]]|]]; cbn; try reflexivity.
    destruct ch as [ct [| entry | entries]]; reflexivity.
Qed.

(** X20.  The form of the identifiers in the feed does not matter: with
    every [guid] of every feed given as a plain string instead of an object
    with a text field, each request gets the same response. *)
Theorem guid_form_is_irrelevant (request : Request) :
  fetch toLowerCase (Shape.plain_world w) request = fetch toLowerCase w request.
Proof.
  unfold fetch.
  destruct (method request); try reflexivity.
  destruct (json request) as [msg|[|[fs fe]]]; try reflexivity. cbn.
  destruct fs as [| |[|c s]]; try reflexivity.
  destruct fe as [| |[|d e]]; try reflexivity.
  f_equal. unfold resolve, tryBlock.
  change (searchApplePodcasts toLowerCase (Shape.plain_world w) (c :: s))
    with (searchApplePodcasts toLowerCase w (c :: s)).
  destruct (searchApplePodcasts toLowerCase w (c :: s)) as [msg|[p|]];
    try reflexivity. cbn.
  destruct (feedUrl p) as [[|c' u]|]; try reflexivity. cbn.
  rewrite fetchAndParseRSSFeed_plain.
  destruct (fetchAndParseRSSFeed w (c' :: u)) as [msg|episodes]; [reflexivity|].
  cbn. rewrite length_map.
  destruct (List.length episodes =? 0)%nat; [reflexivity|]. cbn.
  rewrite findEpisode_plain.
  destruct (findEpisode toLowerCase episodes (d :: e)) as [ep|]; cbn.
  - reflexivity.
  - unfold slice0. rewrite firstn_map, map_map. reflexivity.
Qed.

End Episodes.

(** X19 at the scenario with the episodes "Ep1" and "Ep2". *)
Lemma episode_not_found_witness :
  fetch ascii_toLowerCase Scenario.w_two_shows (post (js "The Daily") (js "Ep3"))
  = Some (jsonResponse
      (ErrorPayload (js "Episode not found")
         (Some (js "No episode found matching " ++ dquote ++ js "Ep3" ++ dquote
                ++ js " in " ++ dquote ++ collectionName Scenario.the_daily
                ++ dquote))
         (Some (map title (firstn 5 [Scenario.ep1; Scenario.ep2]))))
      404).
Proof.
  refine (episode_not_found ascii_toLowerCase Scenario.w_two_shows
            (js "The Daily") (js "Ep3") Scenario.the_daily
            (js "https://example.test/feed") [Scenario.ep1; Scenario.ep2]
            _ _ eq_refl eq_refl _ eq_refl _ eq_refl);
    vm_compute; discriminate.
Defined.
